(** * Walkability pipeline: subgraph construction and rule-based scoring

    A shallow embedding of the notebook [GNN_Test1(Simple_GNN).ipynb]:
    [validate_geometries], [load_and_prepare_data] after the files are
    read, the per-neighborhood loop of [build_graph],
    [compute_walkability_scores], [calculate_walkability],
    [prepare_gnn_data] and the control flow of [main].  The network, its
    training and the map are not modelled.

    Numbers held in float columns are modelled as exact rationals ([Q]);
    a missing cell (NaN / null) is [None].  Rounding is left out of that
    model; [Binary64] evaluates the scoring formula in double precision
    for the two worked examples.  Progress bars and [print] calls are
    not modelled. *)

From Stdlib Require Import QArith Qminmax Lqa.
From Stdlib Require Import Ascii DecimalString DecimalPos DecimalZ SpecFloat.
From stdpp Require Import gmap strings list fin_maps.

Local Open Scope Z_scope.

(* ===================================================================== *)
(** * Part I. Definitions                                                 *)
(* ===================================================================== *)

(** ** Node tables *)

(** One cell of a float column: [None] is NaN. *)
Abbreviation cell := (option Q).

(** The five dictionary shapes appended to [all_nodes] in [build_graph]. *)
Inductive node :=
| neighborhood_node (vertex lie_name : string) (population : cell)
    (land_use_residential_percent land_use_commercial_percent
     land_use_education_percent ndvi_mean : cell)
    (tree_count transit_count : Z)
| building_node (vertex : string) (building_type : option string) (area_m2 : cell)
| road_node (vertex : string) (road_class : option string) (length_m : cell)
| tree_node (vertex : string)
| transit_node (vertex : string) (class : option string).

(** Column ['vertex']. *)
Definition vertex (n : node) : string :=
  match n with
  | neighborhood_node v _ _ _ _ _ _ _ _ => v
  | building_node v _ _ => v
  | road_node v _ _ => v
  | tree_node v => v
  | transit_node v _ => v
  end.

(** Column ['type']. *)
Definition type (n : node) : string :=
  match n with
  | neighborhood_node _ _ _ _ _ _ _ _ _ => "neighborhood"
  | building_node _ _ _ => "building"
  | road_node _ _ _ => "road"
  | tree_node _ => "tree"
  | transit_node _ _ => "transit"
  end.

(** [(nodes_df['type'] == t).sum()]: the number of rows of one type. *)
Definition count_type (t : string) (l : list node) : nat :=
  length (List.filter (λ n, String.eqb (type n) t) l).

(** [nodes_df]: the rows built from [all_nodes], and the column
    [walkability_rule] when the table has one. *)
Record nodes_df := {
  rows : list node;
  walkability_rule : option (list cell)
}.

(** A column has one cell per row. *)
Definition wf_nodes_df (df : nodes_df) : Prop :=
  ∀ col, walkability_rule df = Some col → length col = length (rows df).

(** ** Rule-based scorer ([compute_walkability_scores]) *)

(** The arithmetic of this module is exact: a score is the value of the
    expression the notebook evaluates, before any rounding.  The
    notebook rounds every operation to double precision; that
    computation is [Binary64.walkability] below, and a statement that
    depends on the last digit is made there. *)
Module Scorer.

(** [Series.clip(upper=u)] on one value. *)
Definition clip_upper (x u : Q) : Q := Qmin x u.

Definition land_use_score (residential commercial education : Q) : Q :=
  ((residential * 0.4 + commercial * 0.3 + education * 0.2) / 100)%Q.

Definition ndvi_score (ndvi : Q) : Q := (ndvi * 0.5)%Q.

Definition tree_score (tree_count : Z) : Q :=
  (clip_upper (inject_Z tree_count / 100) 1 * 0.2)%Q.

Definition transit_score (transit_count : Z) : Q :=
  (clip_upper (inject_Z transit_count / 20) 1 * 0.2)%Q.

Definition walkability (residential commercial education ndvi : Q)
    (tree_count transit_count : Z) : Q :=
  clip_upper (land_use_score residential commercial education
              + ndvi_score ndvi * 0.4
              + tree_score tree_count
              + transit_score transit_count)%Q 1.

(** [Series.fillna(v)] on one cell. *)
Definition fillna (v : Q) (c : cell) : Q := default v c.

(** The score series at one row of [neighborhood_df]; a NaN land-use
    percentage makes the whole sum NaN. *)
Definition row_walkability (n : node) : cell :=
  match n with
  | neighborhood_node _ _ _ residential commercial education ndvi
      tree_count transit_count =>
      r ← residential; c ← commercial; e ← education;
      Some (walkability r c e (fillna 0 ndvi) tree_count transit_count)
  | _ => None
  end.

Definition is_neighborhood (n : node) : bool := String.eqb (type n) "neighborhood".

(** [nodes_df.loc[mask, col] = values]: the masked rows take the
    values in order, the others keep their cell. *)
Fixpoint loc_assign (mask : list bool) (col values : list cell) : list cell :=
  match mask, col with
  | true :: mask', _ :: col' =>
      match values with
      | v :: values' => v :: loc_assign mask' col' values'
      | [] => []
      end
  | false :: mask', x :: col' => x :: loc_assign mask' col' values
  | _, _ => []
  end.

(** [if 'walkability_rule' not in nodes_df.columns:
       nodes_df['walkability_rule'] = 0.0] *)
Definition ensure_column (df : nodes_df) : list cell :=
  match walkability_rule df with
  | Some col => col
  | None => replicate (length (rows df)) (Some 0%Q)
  end.

Definition compute_walkability_scores (df : nodes_df) : nodes_df :=
  let neighborhood_mask := is_neighborhood <$> rows df in
  let neighborhood_df := List.filter is_neighborhood (rows df) in
  if (length neighborhood_df =? 0)%nat then
    {| rows := rows df; walkability_rule := Some (ensure_column df) |}
  else
    let walkability := row_walkability <$> neighborhood_df in
    {| rows := rows df;
       walkability_rule :=
         Some (loc_assign neighborhood_mask (ensure_column df) walkability) |}.

(** [compute_walkability_scores(nodes_df)['walkability_rule'].iloc[i]]:
    the cell of the score column at row [i] after scoring. *)
Definition score_at (df : nodes_df) (i : nat) : option cell :=
  col ← walkability_rule (compute_walkability_scores df); col !! i.

End Scorer.

(** The same formula on binary64 values, the arithmetic the notebook
    runs (IEEE 754 double precision, round to nearest even), operation
    by operation in the order of the source. *)
Module Binary64.

Abbreviation float := spec_float.
Definition prec : Z := 53.
Definition emax : Z := 1024.

Definition of_int (z : Z) : float := binary_normalize prec emax z 0 false.
Definition add : float → float → float := SFadd prec emax.
Definition mul : float → float → float := SFmul prec emax.
Definition div : float → float → float := SFdiv prec emax.

(** A decimal literal [n/d], read as the nearest double. *)
Definition literal (n d : Z) : float := div (of_int n) (of_int d).

Definition clip_upper (x u : float) : float := if SFltb u x then u else x.

Definition walkability (residential commercial education ndvi
    tree_count transit_count : float) : float :=
  let land_use_score :=
    div (add (add (mul residential (literal 4 10)) (mul commercial (literal 3 10)))
             (mul education (literal 2 10)))
        (of_int 100) in
  let ndvi_score := mul ndvi (literal 5 10) in
  let tree_score := mul (clip_upper (div tree_count (of_int 100)) (of_int 1)) (literal 2 10) in
  let transit_score :=
    mul (clip_upper (div transit_count (of_int 20)) (of_int 1)) (literal 2 10) in
  clip_upper (add (add (add land_use_score (mul ndvi_score (literal 4 10))) tree_score)
                  transit_score)
             (of_int 1).

End Binary64.

(** ** Python values used by the pipeline *)

Inductive exn :=
| IndexError
| ValueError
| OSError (path : string)
| UnpicklingError (path : string)
| OtherError (msg : string).

Inductive result (A : Type) :=
| Ok (a : A)
| Raise (e : exn).
Arguments Ok {A} a.
Arguments Raise {A} e.

#[export] Instance result_ret : MRet result := @Ok.
#[export] Instance result_bind : MBind result :=
  λ A B f m, match m with Ok a => f a | Raise e => Raise e end.
#[export] Instance result_fmap : FMap result :=
  λ A B f m, match m with Ok a => Ok (f a) | Raise e => Raise e end.

(** [f"{i}"] for an integer. *)
Definition py_str (i : Z) : string := NilZero.string_of_int (Z.to_int i).

(** [int(s)] on the strings the pipeline parses: an optional minus sign
    and decimal digits; anything else raises [ValueError]. *)
Definition py_int (s : string) : result Z :=
  match NilZero.int_of_string s with
  | Some d => Ok (Z.of_int d)
  | None => Raise ValueError
  end.

(** [s.split(sep)] for a one-character separator. *)
Fixpoint split (sep : Ascii.ascii) (s : string) : list string :=
  match s with
  | EmptyString => [EmptyString]
  | String c s' =>
      if Ascii.eqb c sep then EmptyString :: split sep s'
      else match split sep s' with
           | w :: ws => String c w :: ws
           | [] => [String c EmptyString]
           end
  end.
Arguments split sep%_char s%_string.

(** [sep not in s]. *)
Fixpoint absent (sep : Ascii.ascii) (s : string) : bool :=
  match s with
  | EmptyString => true
  | String c s' => negb (Ascii.eqb c sep) && absent sep s'
  end.
Arguments absent sep%_char s%_string.

(** [l[i]] and [series.iloc[i]]: negative positions count from the end,
    a position out of range raises [IndexError]. *)
Definition py_index {A} (l : list A) (i : Z) : result A :=
  let n := Z.of_nat (length l) in
  let j := if i <? 0 then n + i else i in
  if (0 <=? j) && (j <? n) then
    match l !! Z.to_nat j with
    | Some x => Ok x
    | None => Raise IndexError
    end
  else Raise IndexError.

(** ** Geometry library *)

(** The operations of shapely / geopandas that the notebook calls.
    [intersects_coords]: an empty line string intersects nothing. *)
Class Shapely (G : Type) := {
  is_valid : G → bool;
  geom_type : G → string;
  buffer : G → Z → G;
  within : G → G → bool;
  intersects : G → G → bool;
  coords : G → list (Q * Q);
  intersects_coords g b :
    geom_type g = "LineString" → intersects g b = true → coords g ≠ []
}.

(** ** Feature layers *)

(** A row of a GeoDataFrame: its attribute columns and its geometry. *)
Record feature (G A : Type) := Feature { attrs : A; geometry : G }.
Arguments Feature {G A} attrs geometry.
Arguments attrs {G A} f.
Arguments geometry {G A} f.

(** A GeoDataFrame: rows in order, each with its (integer) index label. *)
Abbreviation GeoDataFrame G A := (list (Z * feature G A)).

Definition index {G A} (gdf : GeoDataFrame G A) : list Z := fst <$> gdf.

(** [pd.RangeIndex(len(gdf))]. *)
Definition RangeIndex (n : nat) : list Z := Z.of_nat <$> seq 0 n.

Definition has_range_index {G A} (gdf : GeoDataFrame G A) : Prop :=
  index gdf = RangeIndex (length gdf).

(** [gdf[mask]]: the rows where the predicate holds, labels kept. *)
Definition boolean_index {G A} (p : feature G A → bool)
    (gdf : GeoDataFrame G A) : GeoDataFrame G A :=
  List.filter (λ row, p row.2) gdf.

(** [gdf.reset_index(drop=True)]. *)
Definition reset_index {G A} (gdf : GeoDataFrame G A) : GeoDataFrame G A :=
  imap (λ i row, (Z.of_nat i, row.2)) gdf.

Module Neighborhood.
Record attrs := {
  LIE_NAME : string;
  population_2024 : cell;
  land_use_residential_percent : cell;
  land_use_commercial_percent : cell;
  land_use_education_percent : cell;
  ndvi_mean : cell;
  tree_count : Z;
  transit_count : Z
}.
End Neighborhood.

Module Building.
Record attrs := { building : option string; area_m2 : cell }.
End Building.

Module Road.
Record attrs := { class : option string; length_m : cell }.
End Road.

Module Tree.
Record attrs := { subtype : string }.
End Tree.

Module Transit.
Record attrs := { class : option string }.
End Transit.

(** The dictionary returned by [load_and_prepare_data], as far as
    [build_graph] reads it. *)
Record data (G : Type) := {
  neighborhoods : GeoDataFrame G Neighborhood.attrs;
  buildings : GeoDataFrame G Building.attrs;
  roads : GeoDataFrame G Road.attrs;
  trees : GeoDataFrame G Tree.attrs;
  transit : GeoDataFrame G Transit.attrs
}.
Arguments neighborhoods {G} d.
Arguments buildings {G} d.
Arguments roads {G} d.
Arguments trees {G} d.
Arguments transit {G} d.

(** Every layer [build_graph] selects from carries the index that
    [validate_geometries] gives it. *)
Definition wf_data {G} (d : data G) : Prop :=
  has_range_index (buildings d) ∧ has_range_index (roads d)
  ∧ has_range_index (trees d) ∧ has_range_index (transit d).

(** ** Geometry validator ([validate_geometries]) *)

(** Frames are objects: a variable holds a reference into the store. *)
Abbreviation ref := positive.
Abbreviation store G A := (gmap positive (GeoDataFrame G A)).

Definition alloc {G A} (gdf : GeoDataFrame G A) (h : store G A) : ref * store G A :=
  let l := fresh (dom h) in (l, <[l := gdf]> h).
Arguments alloc {G A} gdf h : simpl never.

Section Validator.
Context {G : Type} `{!Shapely G} {A : Type}.

(** [gdf = gdf[gdf.geometry.is_valid]; gdf = gdf.reset_index(drop=True);
    return gdf].  Both operations build a new frame and the local name
    is rebound to it.  [None]: the argument is not a frame of the store. *)
Definition validate_geometries (gdf : ref) (h : store G A) : option (ref * store G A) :=
  df ← h !! gdf;
  let '(gdf1, h1) := alloc (boolean_index (λ row, is_valid (geometry row)) df) h in
  df1 ← h1 !! gdf1;
  let '(gdf2, h2) := alloc (reset_index df1) h1 in
  Some (gdf2, h2).

End Validator.

(** ** Subgraph builder ([build_graph]) *)

(** [{'nodes': nodes_df, 'edges': edges_df}]; [edges] is [None] when
    [all_edges] is empty. *)
Record subgraph_data := {
  nodes : nodes_df;
  edges : option (list (Z * Z))
}.

(** The content of a cache file.  A complete pickle is held as the value
    [pickle.load] reads from it, so [pickle.dump] followed by
    [pickle.load] gives the value back.  [Incomplete] is a file without
    a complete pickle, empty or truncated, as a [pickle.dump] that
    raised leaves it: on such a file [pickle.load] raises [EOFError] or
    [pickle.UnpicklingError], here [UnpicklingError]. *)
Inductive file :=
| Pickle (value : subgraph_data)
| Incomplete.

(** The cache directory; [os.path.exists] is membership. *)
Abbreviation files := (gmap string file).

(** What [with open(p, 'wb') as f: pickle.dump(subgraph_data, f)] does
    at a path: both calls return; [open] raises [OSError] and no file
    is created; or [open] creates the file and [pickle.dump] raises
    [OSError] on an I/O error, which leaves the file incomplete. *)
Inductive write_outcome :=
| Written
| Open_fails
| Dump_fails.

Definition SUBGRAPH_DIR : string :=
  "/home/johnny/Iaacthesis/projects/Geojson/GNN_Read_data/subgraphs".

(** [os.path.join(a, b)] for a relative [b] and an [a] without a
    trailing separator. *)
Definition path_join (a b : string) : string := a +:+ "/" +:+ b.

Definition subgraph_path (lie_name : string) : string :=
  path_join SUBGRAPH_DIR ("subgraph_" +:+ lie_name +:+ ".pkl").

(** The two values [build_graph] accumulates and returns. *)
Record build_state := {
  subgraphs : gmap string subgraph_data;
  road_network_nodes : list node
}.

(** [df[name]] as the list of its cells. *)
Definition column {G A B} (f : A → B) (gdf : GeoDataFrame G A) : list B :=
  (λ row, f (attrs row.2)) <$> gdf.

Section Builder.
Context {G : Type} `{!Shapely G}.

(** [write p]: what writing the cache file at [p] does in this run. *)
Variable write : string → write_outcome.

Definition buffer_distance : Z := 200.

Definition neigh_buffer (nb : feature G Neighborhood.attrs) : G :=
  buffer (geometry nb) buffer_distance.

Definition relevant_buildings (d : data G) nb :=
  boolean_index (λ row, within (geometry row) (neigh_buffer nb)) (buildings d).
Definition relevant_roads (d : data G) nb :=
  boolean_index (λ row, intersects (geometry row) (neigh_buffer nb)) (roads d).
Definition relevant_trees (d : data G) nb :=
  boolean_index (λ row, within (geometry row) (neigh_buffer nb)) (trees d).
Definition relevant_transit (d : data G) nb :=
  boolean_index (λ row, within (geometry row) (neigh_buffer nb)) (transit d).

Definition node_data (nb : feature G Neighborhood.attrs) : node :=
  let lie_name := Neighborhood.LIE_NAME (attrs nb) in
  neighborhood_node ("neighborhood_" +:+ lie_name) lie_name
    (Neighborhood.population_2024 (attrs nb))
    (Neighborhood.land_use_residential_percent (attrs nb))
    (Neighborhood.land_use_commercial_percent (attrs nb))
    (Neighborhood.land_use_education_percent (attrs nb))
    (Neighborhood.ndvi_mean (attrs nb))
    (Neighborhood.tree_count (attrs nb))
    (Neighborhood.transit_count (attrs nb)).

Definition building_data (row : Z * feature G Building.attrs) : node :=
  let '(b_idx, building) := row in
  building_node ("building_" +:+ py_str b_idx)
    (Building.building (attrs building)) (Building.area_m2 (attrs building)).

(** Body of the first road loop: what one selected road adds to
    [road_points]. *)
Definition road_endpoints (row : Z * feature G Road.attrs)
    : result (list (string * (Q * Q))) :=
  let '(r_idx, road) := row in
  let geom := geometry road in
  if String.eqb (geom_type geom) "LineString" then
    start_point ← py_index (coords geom) 0;
    end_point ← py_index (coords geom) (-1);
    Ok [("road_start_" +:+ py_str r_idx, start_point);
        ("road_end_" +:+ py_str r_idx, end_point)]
  else Ok [].

(** Body of the second road loop. *)
Definition road_data (roads_gdf : GeoDataFrame G Road.attrs)
    (point : string * (Q * Q)) : result node :=
  let '(node_id, geom) := point in
  part ← py_index (split "_" node_id) 2;
  r_idx ← py_int part;
  road_class ← py_index (column Road.class roads_gdf) r_idx;
  length_m ← py_index (column Road.length_m roads_gdf) r_idx;
  Ok (road_node node_id road_class length_m).

(** What the two road loops are meant to add for one selected road:
    two rows for a line string, carrying its class and length. *)
Definition road_rows (row : Z * feature G Road.attrs) : list node :=
  let '(r_idx, road) := row in
  if String.eqb (geom_type (geometry road)) "LineString" then
    [road_node ("road_start_" +:+ py_str r_idx)
       (Road.class (attrs road)) (Road.length_m (attrs road));
     road_node ("road_end_" +:+ py_str r_idx)
       (Road.class (attrs road)) (Road.length_m (attrs road))]
  else [].

Definition tree_data (row : Z * feature G Tree.attrs) : node :=
  tree_node ("tree_" +:+ py_str row.1).

Definition transit_data (row : Z * feature G Transit.attrs) : node :=
  let '(t_idx, transit) := row in
  transit_node ("transit_" +:+ py_str t_idx) (Transit.class (attrs transit)).

(** The rows a new table is meant to have, in order: steps 2 and 5 to 8
    of the builder. *)
Definition expected_nodes (d : data G) (nb : feature G Neighborhood.attrs) : list node :=
  node_data nb
    :: (building_data <$> relevant_buildings d nb)
    ++ (relevant_roads d nb ≫= road_rows)
    ++ (tree_data <$> relevant_trees d nb)
    ++ (transit_data <$> relevant_transit d nb).

(** Where a row of a new table comes from. *)
Inductive emitted (d : data G) (nb : feature G Neighborhood.attrs) : node → Prop :=
| emitted_neighborhood :
    emitted d nb (node_data nb)
| emitted_building i b :
    (i, b) ∈ buildings d →
    within (geometry b) (neigh_buffer nb) = true →
    emitted d nb (building_data (i, b))
| emitted_road_start i r :
    (i, r) ∈ roads d →
    intersects (geometry r) (neigh_buffer nb) = true →
    geom_type (geometry r) = "LineString" →
    emitted d nb (road_node ("road_start_" +:+ py_str i)
                    (Road.class (attrs r)) (Road.length_m (attrs r)))
| emitted_road_end i r :
    (i, r) ∈ roads d →
    intersects (geometry r) (neigh_buffer nb) = true →
    geom_type (geometry r) = "LineString" →
    emitted d nb (road_node ("road_end_" +:+ py_str i)
                    (Road.class (attrs r)) (Road.length_m (attrs r)))
| emitted_tree i t :
    (i, t) ∈ trees d →
    within (geometry t) (neigh_buffer nb) = true →
    emitted d nb (tree_data (i, t))
| emitted_transit i t :
    (i, t) ∈ transit d →
    within (geometry t) (neigh_buffer nb) = true →
    emitted d nb (transit_data (i, t)).

(** The cache-miss path of the loop body up to [all_nodes]: the rows of
    the new table, and the road rows also appended to
    [road_network_nodes]. *)
Definition subgraph_nodes (d : data G) (nb : feature G Neighborhood.attrs)
    : result (list node * list node) :=
  road_points ← mjoin <$> mapM road_endpoints (relevant_roads d nb);
  road_nodes ← mapM (road_data (roads d)) road_points;
  Ok (node_data nb
        :: (building_data <$> relevant_buildings d nb)
        ++ road_nodes
        ++ (tree_data <$> relevant_trees d nb)
        ++ (transit_data <$> relevant_transit d nb),
      road_nodes).

(** One iteration of the loop over neighborhoods. *)
Definition build_subgraph (d : data G) (nb : feature G Neighborhood.attrs)
    (st : build_state) (fs : files) : result build_state * files :=
  let lie_name := Neighborhood.LIE_NAME (attrs nb) in
  match fs !! subgraph_path lie_name with
  | Some (Pickle cached) =>
      (Ok {| subgraphs := <[lie_name := cached]> (subgraphs st);
             road_network_nodes := road_network_nodes st |}, fs)
  | Some Incomplete => (Raise (UnpicklingError (subgraph_path lie_name)), fs)
  | None =>
      match subgraph_nodes d nb with
      | Raise e => (Raise e, fs)
      | Ok (all_nodes, road_nodes) =>
          let nodes_df := {| rows := all_nodes; walkability_rule := None |} in
          let subgraph_data := {| nodes := nodes_df; edges := None |} in
          match write (subgraph_path lie_name) with
          | Written =>
              (Ok {| subgraphs := <[lie_name := subgraph_data]> (subgraphs st);
                     road_network_nodes := road_network_nodes st ++ road_nodes |},
               <[subgraph_path lie_name := Pickle subgraph_data]> fs)
          | Open_fails => (Raise (OSError (subgraph_path lie_name)), fs)
          | Dump_fails =>
              (Raise (OSError (subgraph_path lie_name)),
               <[subgraph_path lie_name := Incomplete]> fs)
          end
      end
  end.

(** [for idx in range(len(neighborhoods_gdf))], rows taken by position. *)
Fixpoint build_loop (d : data G) (nbs : GeoDataFrame G Neighborhood.attrs)
    (st : build_state) (fs : files) : result build_state * files :=
  match nbs with
  | [] => (Ok st, fs)
  | row :: rest =>
      match build_subgraph d row.2 st fs with
      | (Ok st', fs') => build_loop d rest st' fs'
      | (Raise e, fs') => (Raise e, fs')
      end
  end.

Definition build_graph (d : data G) (fs : files) : result build_state * files :=
  build_loop d (neighborhoods d) {| subgraphs := ∅; road_network_nodes := [] |} fs.

(** The identity of a row of the neighborhood layer. *)
Definition name_of (row : Z * feature G Neighborhood.attrs) : string :=
  Neighborhood.LIE_NAME (attrs row.2).

(** Every subgraph held in memory is the content of its cache file. *)
Definition cache_agrees (st : build_state) (fs : files) : Prop :=
  ∀ k sd, subgraphs st !! k = Some sd → fs !! subgraph_path k = Some (Pickle sd).

(** ** Orchestrator ([main]) *)

(** What [main] prints last. *)
Inductive outcome :=
| Analysis_completed_successfully
| Error_during_analysis (e : exn).

(** [main]: the stages run inside one [try]; the handler catches every
    exception.  Stage 1 and stages 3 to 5 are arguments. *)
Definition main (load_and_prepare_data : result (data G))
    (later_stages : build_state → result unit) (fs : files) : outcome * files :=
  match load_and_prepare_data with
  | Raise e => (Error_during_analysis e, fs)
  | Ok d =>
      match build_graph d fs with
      | (Raise e, fs') => (Error_during_analysis e, fs')
      | (Ok st, fs') =>
          match later_stages st with
          | Raise e => (Error_during_analysis e, fs')
          | Ok _ => (Analysis_completed_successfully, fs')
          end
      end
  end.

End Builder.

(** ** Identities of the endpoints of one road *)

Section RoadIdentities.
Context {G : Type} `{!Shapely G}.

(** The identities the first road loop gives one selected road. *)
Definition endpoint_ids (row : Z * feature G Road.attrs) : list string :=
  if String.eqb (geom_type (geometry row.2)) "LineString"
  then ["road_start_" +:+ py_str row.1; "road_end_" +:+ py_str row.1]
  else [].

End RoadIdentities.

(** ** The frame [validate_geometries] returns *)

Section Validated.
Context {G : Type} `{!Shapely G} {A : Type}.

(** The frame [validate_geometries] returns, as a function of the frame
    it is given. *)
Definition validated (gdf : GeoDataFrame G A) : GeoDataFrame G A :=
  reset_index (boolean_index (λ row, is_valid (geometry row)) gdf).

End Validated.

(** ** Stage 1: [load_and_prepare_data] *)

(** The steps of [load_and_prepare_data] after the files are read.  What
    the geometry libraries compute is given: [to_crs] reprojects one
    geometry, [geom_length] is [geometry.length], [point_in_polygon] is
    the cuspatial test for one point and one polygon.  The zoning layer,
    which is validated and returned but read by no later stage, is left
    out. *)
Section Loader.
Context {G : Type} `{!Shapely G}.
Variable to_crs : G → G.
Variable geom_length : G → Q.
Variable point_in_polygon : G → G → bool.

(** The frames [gpd.read_file] and [gpd.read_parquet] return, and
    [roads_gdf.crs.is_geographic]. *)
Record raw_layers := {
  raw_neighborhoods : GeoDataFrame G Neighborhood.attrs;
  raw_buildings : GeoDataFrame G Building.attrs;
  raw_roads : GeoDataFrame G Road.attrs;
  roads_is_geographic : bool;
  raw_trees : GeoDataFrame G Tree.attrs;
  raw_transit : GeoDataFrame G Transit.attrs
}.

(** [gdf[col] = values], the values computed row by row. *)
Definition assign_column {A} (f : feature G A → A) (gdf : GeoDataFrame G A)
    : GeoDataFrame G A :=
  (λ row, (row.1, Feature (f row.2) (geometry row.2))) <$> gdf.

(** [gdf.at[label, col] = value] for a label the frame has. *)
Definition at_set {A} (label : Z) (f : A → A) (gdf : GeoDataFrame G A)
    : GeoDataFrame G A :=
  (λ row, if Z.eqb row.1 label
          then (row.1, Feature (f (attrs row.2)) (geometry row.2))
          else row) <$> gdf.

(** [gdf.to_crs(...)]: every geometry reprojected, index kept. *)
Definition to_crs_frame {A} (gdf : GeoDataFrame G A) : GeoDataFrame G A :=
  (λ row, (row.1, Feature (attrs row.2) (to_crs (geometry row.2)))) <$> gdf.

(** [series.isin(values)] on one cell. *)
Definition isin (c : option string) (values : list string) : bool :=
  match c with
  | Some s => existsb (String.eqb s) values
  | None => false
  end.

Definition set_length_m (v : cell) (a : Road.attrs) : Road.attrs :=
  {| Road.class := Road.class a; Road.length_m := v |}.

Definition set_tree_count (v : Z) (a : Neighborhood.attrs) : Neighborhood.attrs :=
  {| Neighborhood.LIE_NAME := Neighborhood.LIE_NAME a;
     Neighborhood.population_2024 := Neighborhood.population_2024 a;
     Neighborhood.land_use_residential_percent :=
       Neighborhood.land_use_residential_percent a;
     Neighborhood.land_use_commercial_percent :=
       Neighborhood.land_use_commercial_percent a;
     Neighborhood.land_use_education_percent :=
       Neighborhood.land_use_education_percent a;
     Neighborhood.ndvi_mean := Neighborhood.ndvi_mean a;
     Neighborhood.tree_count := v;
     Neighborhood.transit_count := Neighborhood.transit_count a |}.

Definition set_transit_count (v : Z) (a : Neighborhood.attrs) : Neighborhood.attrs :=
  {| Neighborhood.LIE_NAME := Neighborhood.LIE_NAME a;
     Neighborhood.population_2024 := Neighborhood.population_2024 a;
     Neighborhood.land_use_residential_percent :=
       Neighborhood.land_use_residential_percent a;
     Neighborhood.land_use_commercial_percent :=
       Neighborhood.land_use_commercial_percent a;
     Neighborhood.land_use_education_percent :=
       Neighborhood.land_use_education_percent a;
     Neighborhood.ndvi_mean := Neighborhood.ndvi_mean a;
     Neighborhood.tree_count := Neighborhood.tree_count a;
     Neighborhood.transit_count := v |}.

(** [cuspatial.point_in_polygon(points, polygon).sum().values[0]]. *)
Definition count_points {A} (points : GeoDataFrame G A) (polygon : G) : Z :=
  Z.of_nat (length (List.filter (λ row, point_in_polygon (geometry row.2) polygon) points)).

(** Body of the counting loop for one [idx]; on an invalid geometry it
    only prints a warning. *)
Definition count_step (trees_gdf : GeoDataFrame G Tree.attrs)
    (transit_gdf : GeoDataFrame G Transit.attrs) (neighborhoods_geo : list G)
    (neighborhoods_gdf : GeoDataFrame G Neighborhood.attrs) (idx : nat)
    : GeoDataFrame G Neighborhood.attrs :=
  match neighborhoods_geo !! idx with
  | Some neighborhood_geom =>
      if is_valid neighborhood_geom then
        at_set (Z.of_nat idx)
          (set_transit_count (count_points transit_gdf neighborhood_geom))
          (at_set (Z.of_nat idx)
             (set_tree_count (count_points trees_gdf neighborhood_geom))
             neighborhoods_gdf)
      else neighborhoods_gdf
  | None => neighborhoods_gdf
  end.

Definition load_and_prepare_data (raw : raw_layers) : data G :=
  let neighborhoods_gdf := validated (raw_neighborhoods raw) in
  let buildings_gdf := validated (raw_buildings raw) in
  let roads_gdf := validated (raw_roads raw) in
  let roads_gdf :=
    if roads_is_geographic raw then to_crs_frame roads_gdf else roads_gdf in
  let roads_gdf :=
    assign_column (λ row, set_length_m (Some (geom_length (geometry row))) (attrs row))
      roads_gdf in
  let trees_gdf :=
    validated (boolean_index (λ row, String.eqb (Tree.subtype (attrs row)) "tree")
                 (raw_trees raw)) in
  let transit_gdf :=
    boolean_index (λ row, isin (Transit.class (attrs row)) ["stop_position"; "bus_stop"])
      (raw_transit raw) in
  let transit_gdf :=
    boolean_index (λ row, String.eqb (geom_type (geometry row)) "Point") transit_gdf in
  let transit_gdf := validated transit_gdf in
  let neighborhoods_geo := (λ row, geometry row.2) <$> neighborhoods_gdf in
  let neighborhoods_gdf :=
    assign_column (λ row, set_transit_count 0 (set_tree_count 0 (attrs row)))
      neighborhoods_gdf in
  let neighborhoods_gdf :=
    foldl (count_step trees_gdf transit_gdf neighborhoods_geo) neighborhoods_gdf
      (seq 0 (length neighborhoods_gdf)) in
  {| neighborhoods := neighborhoods_gdf;
     buildings := buildings_gdf;
     roads := roads_gdf;
     trees := trees_gdf;
     transit := transit_gdf |}.

(** What the loop has done to row [j] after the indices below [k]. *)
Definition counted (trees_gdf : GeoDataFrame G Tree.attrs)
    (transit_gdf : GeoDataFrame G Transit.attrs) (k j : nat)
    (row : Z * feature G Neighborhood.attrs) : Z * feature G Neighborhood.attrs :=
  if (j <? k)%nat && is_valid (geometry row.2) then
    (row.1,
     Feature (set_transit_count (count_points transit_gdf (geometry row.2))
                (set_tree_count (count_points trees_gdf (geometry row.2)) (attrs row.2)))
             (geometry row.2))
  else row.

End Loader.


(** ** Stage 3: [calculate_walkability] *)

(** A dictionary is iterated as the list of its items, keys pairwise
    different.  Of [neighborhoods_gdf] the stage reads the column
    [LIE_NAME] and writes the column [walkability_rule]; the frame has
    no such column before the first write ([None]), and the first write
    creates it with NaN in the rows it does not select. *)
Module Stage3.
Import Scorer.

(** [col[mask]]. *)
Fixpoint masked {A} (mask : list bool) (col : list A) : list A :=
  match mask, col with
  | true :: mask', x :: col' => x :: masked mask' col'
  | false :: mask', _ :: col' => masked mask' col'
  | _, _ => []
  end.

(** [nodes_df[nodes_df['type'] == 'neighborhood']['walkability_rule']]
    on a table that was just scored. *)
Definition neighborhood_walkability (df : nodes_df) : list cell :=
  match walkability_rule df with
  | Some col => masked (is_neighborhood <$> rows df) col
  | None => []
  end.

(** [gdf.loc[gdf['LIE_NAME'] == lie_name, 'walkability_rule'] = value]. *)
Definition loc_set (names : list string) (lie_name : string) (value : cell)
    (col : option (list cell)) : option (list cell) :=
  Some (zip_with (λ name c, if String.eqb name lie_name then value else c) names
          (default (replicate (length names) None) col)).

(** Body of the loop for one item. *)
Definition score_subgraph (names : list string)
    (acc : list (string * subgraph_data) * option (list cell))
    (item : string * subgraph_data)
    : list (string * subgraph_data) * option (list cell) :=
  let '(lie_name, subgraph_data) := item in
  let nodes_df := compute_walkability_scores (nodes subgraph_data) in
  let subgraph_data' := {| nodes := nodes_df; edges := edges subgraph_data |} in
  let col :=
    match neighborhood_walkability nodes_df with
    | [] => acc.2
    | walkability_value :: _ => loc_set names lie_name walkability_value acc.2
    end in
  (acc.1 ++ [(lie_name, subgraph_data')], col).

(** The returned dictionary and the column [walkability_rule] of the
    neighborhood frame after the loop. *)
Definition calculate_walkability {G} (subgraphs : list (string * subgraph_data))
    (neighborhoods_gdf : GeoDataFrame G Neighborhood.attrs)
    : list (string * subgraph_data) * option (list cell) :=
  let names := column Neighborhood.LIE_NAME neighborhoods_gdf in
  foldl (score_subgraph names) ([], None) subgraphs.

(** The entry of the returned dictionary for one item. *)
Definition scored (item : string * subgraph_data) : string * subgraph_data :=
  (item.1, {| nodes := compute_walkability_scores (nodes item.2); edges := edges item.2 |}).

(** The score copied to the neighborhood frame for one subgraph, if
    any. *)
Definition copied_score (sd : subgraph_data) : option cell :=
  head (neighborhood_walkability (compute_walkability_scores (nodes sd))).

(** The column as read after the loop: a frame without the column has
    no score in any row. *)
Definition cells (names : list string) (col : option (list cell)) : list cell :=
  default (replicate (length names) None) col.

(** The column, when the frame has it, has one cell per row. *)
Definition wf_column (names : list string) (col : option (list cell)) : Prop :=
  ∀ c, col = Some c → length c = length names.

End Stage3.

(** ** Stage 4: [prepare_gnn_data] *)

Module Stage4.
Import Scorer.

(** [torch_geometric.data.Data(x, edge_index, y)]; a label can be NaN.
    The conversion of the values to single precision is left out. *)
Record Data := {
  x : list (list Q);
  edge_index : list Z * list Z;
  y : list cell
}.

(** One row of [nodes_df[feature_cols].fillna(0)]: the six columns exist
    on neighborhood rows only. *)
Definition features (n : node) : list Q :=
  match n with
  | neighborhood_node _ _ _ residential commercial education ndvi
      tree_count transit_count =>
      [fillna 0 residential; fillna 0 commercial; fillna 0 education; fillna 0 ndvi;
       inject_Z tree_count; inject_Z transit_count]
  | _ => [0; 0; 0; 0; 0; 0]%Q
  end.

(** Body of the loop.  The feature columns are columns of the table only
    if some row is a neighborhood row, and the label column only after
    scoring; selecting a column that is missing raises [KeyError]. *)
Definition gnn_data (subgraph_data : subgraph_data) : result Data :=
  let nodes_df := nodes subgraph_data in
  if existsb is_neighborhood (rows nodes_df) then
    let edge_index :=
      match edges subgraph_data with
      | Some edges_df => (edges_df.*1, edges_df.*2)
      | None => ([], [])
      end in
    match walkability_rule nodes_df with
    | Some col => Ok {| x := features <$> rows nodes_df; edge_index := edge_index; y := col |}
    | None => Raise (OtherError "KeyError: 'walkability_rule'")
    end
  else Raise (OtherError "KeyError: feature columns").

Definition prepare_gnn_data (subgraphs : list (string * subgraph_data))
    : result (list Data) :=
  mapM (λ item, gnn_data item.2) subgraphs.

End Stage4.

(** ** A concrete geometry: closed intervals of one axis

    Exact one-dimensional geometry, used to run the definitions: a
    feature is the interval from [lo] to [hi] (a point when they are
    equal), the buffer widens it on both sides, [within] asks for
    containment with a common interior point, [intersects] for a common
    point. *)

Module Line.

Record seg := Seg { kind : string; lo : Z; hi : Z }.

Definition seg_coords (g : seg) : list (Q * Q) :=
  if String.eqb (kind g) "Point" then [(inject_Z (lo g), 0%Q)]
  else [(inject_Z (lo g), 0%Q); (inject_Z (hi g), 0%Q)].

Definition seg_within (a b : seg) : bool :=
  (lo b <=? lo a) && (hi a <=? hi b)
  && ((lo a <? hi a) || ((lo b <? lo a) && (hi a <? hi b))).

Definition seg_intersects (a b : seg) : bool :=
  (lo a <=? hi b) && (lo b <=? hi a).

#[global] Instance seg_shapely : Shapely seg := {|
  is_valid g := lo g <=? hi g;
  geom_type := kind;
  buffer g d := Seg "Polygon" (lo g - d) (hi g + d);
  within := seg_within;
  intersects := seg_intersects;
  coords := seg_coords;
  intersects_coords g b _ _ :=
    ltac:(unfold seg_coords; destruct (String.eqb _ _); discriminate)
|}.

Definition polygon (l h : Z) : seg := Seg "Polygon" l h.
Definition line_string (l h : Z) : seg := Seg "LineString" l h.
Definition multi_line_string (l h : Z) : seg := Seg "MultiLineString" l h.
Definition point (x : Z) : seg := Seg "Point" x x.

End Line.

(** ** A small city on the line

    Neighborhood [A] covers 0..100, so its buffer is -200..300. *)

Module City.
Import Line.

Definition A : feature seg Neighborhood.attrs :=
  Feature (Neighborhood.Build_attrs "A" (Some 1200%Q) (Some 100%Q) (Some 0%Q)
             (Some 0%Q) None 0 0) (polygon 0 100).
(** [A] with 60 trees counted. *)
Definition A' : feature seg Neighborhood.attrs :=
  Feature (Neighborhood.Build_attrs "A" (Some 1200%Q) (Some 100%Q) (Some 0%Q)
             (Some 0%Q) None 60 0) (polygon 0 100).
Definition B : feature seg Neighborhood.attrs :=
  Feature (Neighborhood.Build_attrs "B" (Some 800%Q) (Some 0%Q) (Some 0%Q)
             (Some 0%Q) (Some 1%Q) 200 40) (polygon 1000 1100).

(** [B] with 25 transit stops counted. *)
Definition B' : feature seg Neighborhood.attrs :=
  Feature (Neighborhood.Build_attrs "B" (Some 800%Q) (Some 0%Q) (Some 0%Q)
             (Some 0%Q) (Some 1%Q) 200 25) (polygon 1000 1100).

Definition house (l h : Z) : feature seg Building.attrs :=
  Feature (Building.Build_attrs (Some "house") (Some (inject_Z (h - l)))) (polygon l h).

Definition street (c : string) (g : seg) : feature seg Road.attrs :=
  Feature (Road.Build_attrs (Some c) (Some (inject_Z (hi g - lo g)))) g.

Definition city : data seg := {|
  neighborhoods := [(0, A); (1, B)];
  (* inside the buffer of A; touching its boundary; far outside *)
  buildings := [(0, house 10 20); (1, house 300 350); (2, house 500 600)];
  (* crossing the boundary of the buffer of A; crossing it as a
     multi-part line; far outside *)
  roads := [(0, street "residential" (line_string 250 400));
            (1, street "footway" (multi_line_string 280 320));
            (2, street "primary" (line_string 2000 2100))];
  trees := [(0, Feature (Tree.Build_attrs "tree") (point 50));
            (1, Feature (Tree.Build_attrs "tree") (point 300))];
  transit := [(0, Feature (Transit.Build_attrs (Some "bus_stop")) (point 150))]
|}.

(** A raw layer: labels left over from an earlier filter, and one
    geometry that is not valid (its ends are swapped). *)
Definition raw_roads : GeoDataFrame seg Road.attrs :=
  [(5, street "residential" (line_string 250 400));
   (7, street "service" (Seg "LineString" 90 10));
   (9, street "primary" (line_string 2000 2100))].

Definition raw_store : store seg Road.attrs := {[ 1%positive := raw_roads ]}.

(** The city with a road layer that did not go through
    [validate_geometries]: its labels are 5, 7, 9. *)
Definition unvalidated : data seg := {|
  neighborhoods := neighborhoods city;
  buildings := buildings city;
  roads := raw_roads;
  trees := trees city;
  transit := transit city
|}.

(** The city with the labels of its first two roads exchanged. *)
Definition relabelled : data seg := {|
  neighborhoods := neighborhoods city;
  buildings := buildings city;
  roads := [(1, street "residential" (line_string 250 400));
            (0, street "footway" (multi_line_string 280 320));
            (2, street "primary" (line_string 2000 2100))];
  trees := trees city;
  transit := transit city
|}.

(** The city with a second neighborhood that is also called [A]. *)
Definition twins : data seg := {|
  neighborhoods := [(0, A); (1, B); (2, Feature (attrs A') (polygon 2000 2100))];
  buildings := buildings city;
  roads := roads city;
  trees := trees city;
  transit := transit city
|}.

(** A cache left by an earlier run on other layers: the file of [A]
    holds a table with a single tree. *)
Definition stale : subgraph_data :=
  {| nodes := {| rows := [tree_node "tree_9"]; walkability_rule := None |};
     edges := None |}.

Definition old_cache : files := {[ subgraph_path "A" := Pickle stale ]}.

(** A cache in which the file of [B] holds no complete pickle. *)
Definition broken_cache : files := {[ subgraph_path "B" := Incomplete ]}.

(** A node table as first built for a neighborhood, before scoring. *)
Definition table_of (nb : feature seg Neighborhood.attrs) : nodes_df :=
  {| rows := [node_data nb; building_node "building_0" (Some "house") (Some 10%Q);
              tree_node "tree_0"];
     walkability_rule := None |}.

Definition always_writable : string → write_outcome := λ _, Written.

(** Every cache file can be written except the one of [A], which
    cannot be opened. *)
Definition locked_A : string → write_outcome :=
  λ p, if String.eqb p (subgraph_path "A") then Open_fails else Written.

(** Every cache file can be written except the one of [A], where
    [pickle.dump] fails after the file was opened. *)
Definition disk_full_A : string → write_outcome :=
  λ p, if String.eqb p (subgraph_path "A") then Dump_fails else Written.

Definition no_subgraphs : build_state :=
  {| subgraphs := ∅; road_network_nodes := [] |}.

End City.

(** Layers as read from files, on the line: labels left by the reader,
    a tree layer with other land cover in it, a transit layer with a
    platform line and a taxi stand, and an invalid building. *)
Module Town.
Import Line.

Definition layers : raw_layers (G := seg) := {|
  raw_neighborhoods := [(10, City.A); (11, City.B)];
  raw_buildings := [(0, City.house 10 20); (1, Feature (attrs (City.house 0 1)) (Seg "Polygon" 9 3))];
  raw_roads := City.raw_roads;
  roads_is_geographic := true;
  raw_trees := [(0, Feature (Tree.Build_attrs "tree") (point 50));
                (1, Feature (Tree.Build_attrs "grass") (point 60));
                (2, Feature (Tree.Build_attrs "tree") (point 1050));
                (3, Feature (Tree.Build_attrs "tree") (point 70))];
  raw_transit := [(0, Feature (Transit.Build_attrs (Some "bus_stop")) (point 20));
                  (1, Feature (Transit.Build_attrs (Some "taxi")) (point 30));
                  (2, Feature (Transit.Build_attrs (Some "stop_position"))
                        (line_string 40 45));
                  (3, Feature (Transit.Build_attrs None) (point 50))]
|}.

(** Reprojection moves the origin; length and containment are those of
    the line. *)
Definition shift (g : seg) : seg := Seg (kind g) (lo g + 1000) (hi g + 1000).
Definition seg_length (g : seg) : Q := inject_Z (hi g - lo g).

Definition loaded : data seg := load_and_prepare_data shift seg_length seg_within layers.

End Town.

(* ===================================================================== *)
(** * Part II. Properties                                                 *)
(* ===================================================================== *)

(** ** Rule-based scorer *)

Module ScorerFacts.
Import Scorer.

Lemma loc_assign_length (f : node → cell) (l : list node) (col : list cell) :
  length col = length l →
  length (loc_assign (is_neighborhood <$> l) col (f <$> List.filter is_neighborhood l))
  = length l.
Proof.
  revert col. induction l as [|n l IH]; intros [|x col] Hlen; simpl in *; try done.
  destruct (is_neighborhood n); simpl; rewrite IH; auto with lia.
Qed.

Lemma loc_assign_lookup (f : node → cell) (l : list node) (col : list cell) i n :
  length col = length l →
  l !! i = Some n →
  loc_assign (is_neighborhood <$> l) col (f <$> List.filter is_neighborhood l) !! i
  = if is_neighborhood n then Some (f n) else col !! i.
Proof.
  revert col i. induction l as [|m l IH]; intros [|x col] i Hlen Hi; simpl in *; try done.
  destruct i as [|i]; simpl in *.
  - injection Hi as ->. by destruct (is_neighborhood n).
  - destruct (is_neighborhood m); simpl; apply IH; auto with lia.
Qed.

Lemma ensure_column_length df :
  wf_nodes_df df → length (ensure_column df) = length (rows df).
Proof.
  unfold wf_nodes_df, ensure_column. intros Hwf.
  destruct (walkability_rule df) as [col|]; [by apply Hwf | by rewrite length_replicate].
Qed.

Lemma ensure_column_lookup df i n :
  rows df !! i = Some n →
  ensure_column df !! i
  = match walkability_rule df with Some old => old !! i | None => Some (Some 0%Q) end.
Proof.
  unfold ensure_column. intros Hi. destruct (walkability_rule df); [done|].
  apply lookup_replicate_2. by eapply lookup_lt_Some.
Qed.

Lemma filter_nil_not_neighborhood (l : list node) n :
  List.filter is_neighborhood l = [] → n ∈ l → is_neighborhood n = false.
Proof.
  intros Hnil Hin. destruct (is_neighborhood n) eqn:Hn; [|done].
  assert (In n (List.filter is_neighborhood l)) as Hf
    by (apply filter_In; split; [by apply list_elem_of_In | done]).
  rewrite Hnil in Hf. destruct Hf.
Qed.

Lemma rows_compute df : rows (compute_walkability_scores df) = rows df.
Proof. unfold compute_walkability_scores. by destruct (_ =? _)%nat. Qed.

(** Row by row: a neighborhood row receives its score, any other row
    keeps the cell it had (0.0 in a column just created). *)
Lemma score_at_row df i n :
  wf_nodes_df df →
  rows df !! i = Some n →
  score_at df i
  = if is_neighborhood n then Some (row_walkability n)
    else match walkability_rule df with
         | Some old => old !! i
         | None => Some (Some 0%Q)
         end.
Proof.
  intros Hwf Hi. unfold score_at, compute_walkability_scores.
  destruct (length (List.filter is_neighborhood (rows df)) =? 0)%nat eqn:Hlen; simpl.
  - apply Nat.eqb_eq, nil_length_inv in Hlen.
    rewrite (filter_nil_not_neighborhood _ n Hlen) by (by eapply list_elem_of_lookup_2).
    by eapply ensure_column_lookup.
  - rewrite (loc_assign_lookup _ _ _ i n) by (by rewrite ?ensure_column_length).
    destruct (is_neighborhood n); [done|]. by eapply ensure_column_lookup.
Qed.

Lemma type_not_neighborhood n : type n ≠ "neighborhood" → is_neighborhood n = false.
Proof. unfold is_neighborhood. intros Hn. by apply String.eqb_neq. Qed.

End ScorerFacts.

Section ScorerClaims.
Import Scorer ScorerFacts.
Local Open Scope Q_scope.




Lemma tree_score_mono (tc tc' : Z) : (tc <= tc')%Z → tree_score tc <= tree_score tc'.
Proof.
  intros Hle. unfold tree_score, clip_upper.
  assert (inject_Z tc / 100 <= inject_Z tc' / 100) as Hdiv
    by (apply Qmult_le_compat_r; [by rewrite <- Zle_Qle | done]).
  pose proof (Q.min_le_compat_r _ _ 1 Hdiv) as Hmin. lra.
Qed.

Lemma tree_score_saturated (tc : Z) : (100 <= tc)%Z → tree_score tc == 0.2.
Proof.
  intros Hle. unfold tree_score, clip_upper.
  rewrite Q.min_r; [reflexivity|].
  apply Qle_shift_div_l; [done|]. rewrite Zle_Qle in Hle.
  rewrite Qmult_1_l. exact Hle.
Qed.

(** C4. With every other attribute of the neighborhood row fixed, a
    larger [tree_count] never gives a smaller score, and from 100 trees
    on the score no longer changes. *)
Theorem tree_count_monotone (df df' : nodes_df) (i : nat)
    (v name : string) (pop : cell) (r c e : Q) (ndvi : cell) (tr tc tc' : Z) :
  wf_nodes_df df →
  wf_nodes_df df' →
  rows df !! i = Some (neighborhood_node v name pop (Some r) (Some c) (Some e) ndvi tc tr) →
  rows df' !! i = Some (neighborhood_node v name pop (Some r) (Some c) (Some e) ndvi tc' tr) →
  (tc <= tc')%Z →
  ∃ w w' : Q,
    score_at df i = Some (Some w)
    ∧ score_at df' i = Some (Some w')
    ∧ w <= w'
    ∧ ((100 <= tc)%Z → w == w').
Proof.
  intros Hwf Hwf' Hi Hi' Hle.
  exists (walkability r c e (fillna 0 ndvi) tc tr),
         (walkability r c e (fillna 0 ndvi) tc' tr).
  split; [by rewrite (score_at_row df i _ Hwf Hi)|].
  split; [by rewrite (score_at_row df' i _ Hwf' Hi')|].
  unfold walkability, clip_upper. split.
  - apply Q.min_le_compat_r. pose proof (tree_score_mono tc tc' Hle). lra.
  - intros Hcap. apply Q.min_compat; [|reflexivity].
    rewrite (tree_score_saturated tc), (tree_score_saturated tc') by lia.
    reflexivity.
Qed.

Lemma tree_count_monotone_witness :
  ∃ w w' : Q,
    score_at (City.table_of City.A) 0 = Some (Some w)
    ∧ score_at (City.table_of City.A') 0 = Some (Some w')
    ∧ w <= w'.
Proof.
  assert (∀ nb, wf_nodes_df (City.table_of nb)) as Hwf by (intros nb col; discriminate).
  destruct (tree_count_monotone (City.table_of City.A) (City.table_of City.A') 0
              _ _ _ _ _ _ _ _ 0%Z 60%Z (Hwf _) (Hwf _) eq_refl eq_refl ltac:(lia))
    as (w & w' & Hw & Hw' & Hle & _).
  exists w, w'. auto.
Defined.

(** C9. Scoring leaves every row of the node table as it was and writes
    the column [walkability_rule] only at rows tagged neighborhood: any
    other row keeps the cell it had, which is the default 0.0 when the
    column is created by this call.  Without a neighborhood row the
    column is just created with 0.0 (or left as it is) and nothing is
    computed. *)
Theorem scorer_frame (df : nodes_df) :
  wf_nodes_df df →
  rows (compute_walkability_scores df) = rows df
  ∧ wf_nodes_df (compute_walkability_scores df)
  ∧ (∀ i n, rows df !! i = Some n → type n ≠ "neighborhood" →
       score_at df i = match walkability_rule df with
                       | Some old => old !! i
                       | None => Some (Some 0)
                       end)
  ∧ (∀ i n, rows df !! i = Some n → type n = "neighborhood" →
       score_at df i = Some (row_walkability n))
  ∧ ((∀ n, n ∈ rows df → type n ≠ "neighborhood") →
       walkability_rule (compute_walkability_scores df)
       = Some (match walkability_rule df with
               | Some old => old
               | None => replicate (length (rows df)) (Some 0)
               end)).
Proof.
  intros Hwf. split; [apply rows_compute|]. split; [|split; [|split]].
  - intros col. rewrite rows_compute. unfold compute_walkability_scores.
    destruct (_ =? _)%nat; simpl; intros [= <-].
    + by apply ensure_column_length.
    + apply loc_assign_length. by apply ensure_column_length.
  - intros i n Hi Hn. rewrite (score_at_row df i n Hwf Hi).
    by rewrite (type_not_neighborhood n Hn).
  - intros i n Hi Hn. rewrite (score_at_row df i n Hwf Hi).
    unfold is_neighborhood. by rewrite Hn.
  - intros Hnone. unfold compute_walkability_scores.
    assert (List.filter is_neighborhood (rows df) = []) as ->; [|done].
    induction (rows df) as [|n l IH]; [done|]. simpl.
    rewrite (type_not_neighborhood n) by (apply Hnone; left).
    apply IH. intros m Hm. apply Hnone. by right.
Qed.

Lemma scorer_frame_witness :
  rows (compute_walkability_scores (City.table_of City.A)) = rows (City.table_of City.A)
  ∧ score_at (City.table_of City.A) 1 = Some (Some 0)
  ∧ score_at (City.table_of City.A) 2 = Some (Some 0).
Proof.
  assert (wf_nodes_df (City.table_of City.A)) as Hwf by (intros col; discriminate).
  destruct (scorer_frame (City.table_of City.A) Hwf) as (Hrows & _ & Hother & _).
  split; [exact Hrows|].
  split; [apply (Hother 1%nat _ eq_refl) | apply (Hother 2%nat _ eq_refl)]; discriminate.
Defined.

End ScorerClaims.

(** Rounding.  Evaluated in binary64 the first worked example is the
    double nearest to 0.4; the second is one unit in the last place above
    the double nearest to 0.6, because 0.2 + 0.2 + 0.2 rounds up. *)
Module Binary64Facts.
Import Binary64.

Example first_example :
  walkability (of_int 100) (of_int 0) (of_int 0) (of_int 0) (of_int 0) (of_int 0)
  = literal 4 10.
Proof. vm_compute. reflexivity. Qed.

Example second_example :
  walkability (of_int 0) (of_int 0) (of_int 0) (of_int 1) (of_int 200) (of_int 40)
  = SFsucc prec emax (literal 6 10)
  ∧ SFeqb (SFsucc prec emax (literal 6 10)) (literal 6 10) = false.
Proof. split; vm_compute; reflexivity. Qed.

End Binary64Facts.

(** ** Geometry validator *)

Section ValidatorClaims.
Context {G : Type} `{!Shapely G} {A : Type}.
Implicit Types (gdf : GeoDataFrame G A) (h : store G A).

Lemma alloc_spec gdf h :
  ∃ l, alloc gdf h = (l, <[l := gdf]> h) ∧ h !! l = None.
Proof.
  exists (fresh (dom h)). split; [done|].
  apply not_elem_of_dom, is_fresh.
Qed.

Lemma reset_index_length gdf : length (reset_index gdf) = length gdf.
Proof. apply length_imap. Qed.

Lemma reset_index_range gdf : has_range_index (reset_index gdf).
Proof.
  unfold has_range_index, index, RangeIndex. rewrite reset_index_length.
  apply list_eq; intros i. unfold reset_index.
  rewrite !list_lookup_fmap, list_lookup_imap.
  destruct (gdf !! i) as [row|] eqn:Hi; simpl.
  - rewrite lookup_seq_lt by (by eapply lookup_lt_Some). done.
  - rewrite lookup_seq_ge by (by apply lookup_ge_None). done.
Qed.

Lemma reset_index_rows gdf : snd <$> reset_index gdf = snd <$> gdf.
Proof.
  apply list_eq; intros i. unfold reset_index.
  rewrite !list_lookup_fmap, list_lookup_imap. by destruct (gdf !! i).
Qed.

Lemma boolean_index_rows (p : feature G A → bool) gdf :
  snd <$> boolean_index p gdf = List.filter p (snd <$> gdf).
Proof.
  unfold boolean_index. induction gdf as [|[l row] gdf IH]; [done|].
  rewrite fmap_cons. cbn [List.filter snd].
  destruct (p row); rewrite <- IH; done.
Qed.

Lemma boolean_index_length (p : feature G A → bool) gdf :
  (length (boolean_index p gdf) <= length gdf)%nat.
Proof. apply List.filter_length_le. Qed.

(** C5. [validate_geometries] returns a new frame that holds exactly the
    rows of the input whose geometry is valid, in their order, labelled
    0, 1, 2, ...; it is never longer than the input, no error path
    exists, and every frame already in the store, the input among them,
    is unchanged. *)
Theorem validate_geometries_spec (ref_in : ref) h gdf :
  h !! ref_in = Some gdf →
  ∃ (ref_out : ref) (h' : store G A) (out : GeoDataFrame G A),
    validate_geometries ref_in h = Some (ref_out, h')
    ∧ h' !! ref_out = Some out
    ∧ (∀ row, row ∈ out → is_valid (geometry row.2) = true)
    ∧ snd <$> out = List.filter (λ row, is_valid (geometry row)) (snd <$> gdf)
    ∧ has_range_index out
    ∧ (length out <= length gdf)%nat
    ∧ h' !! ref_in = Some gdf
    ∧ (∀ l x, h !! l = Some x → h' !! l = Some x).
Proof.
  intros Hin. unfold validate_geometries. rewrite Hin. cbn [mbind option_bind].
  set (valid := boolean_index (λ row, is_valid (geometry row)) gdf).
  destruct (alloc_spec valid h) as (l1 & -> & Hl1).
  rewrite lookup_insert_eq. cbn [mbind option_bind].
  destruct (alloc_spec (reset_index valid) (<[l1 := valid]> h)) as (l2 & -> & Hl2).
  assert (∀ l x, h !! l = Some x → <[l2 := reset_index valid]> (<[l1 := valid]> h) !! l = Some x)
    as Hframe.
  { intros l x Hl.
    assert (l ≠ l1) by congruence.
    assert (<[l1 := valid]> h !! l = Some x) as Hl' by (by rewrite lookup_insert_ne).
    assert (l ≠ l2) by congruence.
    by rewrite lookup_insert_ne. }
  exists l2, (<[l2 := reset_index valid]> (<[l1 := valid]> h)), (reset_index valid).
  split; [done|]. split; [apply lookup_insert_eq|].
  split; [|split; [|split; [|split; [|split]]]].
  - intros [l row] Hrow. simpl.
    assert (row ∈ snd <$> reset_index valid) as Hsnd
      by (apply list_elem_of_fmap; by exists (l, row)).
    rewrite reset_index_rows in Hsnd. unfold valid in Hsnd.
    rewrite boolean_index_rows in Hsnd.
    apply list_elem_of_In, filter_In in Hsnd. tauto.
  - rewrite reset_index_rows. apply boolean_index_rows.
  - apply reset_index_range.
  - rewrite reset_index_length. apply boolean_index_length.
  - by apply Hframe.
  - exact Hframe.
Qed.

End ValidatorClaims.

Lemma validate_geometries_spec_witness :
  City.raw_store !! 1%positive = Some City.raw_roads
  ∧ ∃ ref_out h' (out : GeoDataFrame Line.seg Road.attrs),
      validate_geometries 1%positive City.raw_store = Some (ref_out, h')
      ∧ h' !! ref_out = Some out
      ∧ index out = [0; 1]
      ∧ h' !! 1%positive = Some City.raw_roads.
Proof.
  split; [reflexivity|].
  destruct (validate_geometries_spec 1%positive City.raw_store City.raw_roads eq_refl)
    as (ref_out & h' & out & Hrun & Hout & _ & Hrows & Hrange & _ & Hin & _).
  exists ref_out, h', out. repeat split; try assumption.
  assert (length out = 2%nat) as Hlen
    by (rewrite <- (length_fmap snd out), Hrows; reflexivity).
  unfold has_range_index in Hrange. by rewrite Hlen in Hrange.
Defined.

(** ** Identity strings *)

Module PyFacts.

Lemma split_absent sep s : absent sep s = true → split sep s = [s].
Proof.
  induction s as [|c s IH]; simpl; [done|].
  destruct (Ascii.eqb c sep); simpl; [done|].
  intros Hs. by rewrite IH.
Qed.

Lemma absent_uint d : absent "_" (NilEmpty.string_of_uint d) = true.
Proof. induction d; simpl; auto. Qed.

Lemma absent_py_str i : absent "_" (py_str i) = true.
Proof.
  unfold py_str.
  destruct (Z.to_int i) as [d|d]; simpl; destruct d; simpl; auto using absent_uint.
Qed.

Lemma to_int_not_nil i : Z.to_int i ≠ Decimal.Pos Decimal.Nil ∧ Z.to_int i ≠ Decimal.Neg Decimal.Nil.
Proof.
  destruct i as [|p|p]; simpl; split; try discriminate;
    intros [= Hnil]; by apply DecimalPos.Unsigned.to_uint_nonnil in Hnil.
Qed.

(** Printing an integer and reading it back. *)
Lemma py_int_py_str i : py_int (py_str i) = Ok i.
Proof.
  unfold py_int, py_str. destruct (to_int_not_nil i) as [Hpos Hneg].
  rewrite NilZero.isi by assumption. by rewrite DecimalZ.of_to.
Qed.

Lemma py_str_inj i j : py_str i = py_str j → i = j.
Proof.
  intros Heq. pose proof (py_int_py_str i) as Hi.
  rewrite Heq, py_int_py_str in Hi. congruence.
Qed.

Lemma py_index_lookup {A} (l : list A) (i : nat) x :
  l !! i = Some x → py_index l (Z.of_nat i) = Ok x.
Proof.
  intros Hi. pose proof (lookup_lt_Some _ _ _ Hi) as Hlt. unfold py_index.
  destruct (Z.ltb_spec (Z.of_nat i) 0); [lia|].
  destruct (Z.leb_spec 0 (Z.of_nat i)); [|lia].
  destruct (Z.ltb_spec (Z.of_nat i) (Z.of_nat (length l))); [|lia].
  simpl. by rewrite Nat2Z.id, Hi.
Qed.

Lemma py_index_first_last {A} (l : list A) :
  l ≠ [] → ∃ x y, py_index l 0 = Ok x ∧ py_index l (-1) = Ok y.
Proof.
  intros Hne.
  destruct l as [|x l]; [done|].
  destruct (lookup_lt_is_Some_2 (x :: l) (length l)) as [y Hy]; [simpl; lia|].
  exists x, y. split; [by apply (py_index_lookup _ 0%nat)|].
  unfold py_index. cbn [length].
  replace (if -1 <? 0 then Z.of_nat (S (length l)) + -1 else -1)
    with (Z.of_nat (length l)) by (destruct (Z.ltb_spec (-1) 0); lia).
  destruct (Z.leb_spec 0 (Z.of_nat (length l))); [|lia].
  destruct (Z.ltb_spec (Z.of_nat (length l)) (Z.of_nat (S (length l)))); [|lia].
  simpl. by rewrite Nat2Z.id, Hy.
Qed.

(** The third piece of an endpoint identity is the printed row index. *)
Lemma split_road_start i :
  split "_" ("road_start_" +:+ py_str i) = ["road"; "start"; py_str i].
Proof.
  simpl. change ("" +:+ py_str i) with (py_str i).
  by rewrite (split_absent _ _ (absent_py_str i)).
Qed.

Lemma split_road_end i :
  split "_" ("road_end_" +:+ py_str i) = ["road"; "end"; py_str i].
Proof.
  simpl. change ("" +:+ py_str i) with (py_str i).
  by rewrite (split_absent _ _ (absent_py_str i)).
Qed.

Lemma mapM_result_cons {A B} (f : A → result B) x l :
  mapM f (x :: l) = y ← f x; k ← mapM f l; Ok (y :: k).
Proof. reflexivity. Qed.

Lemma mapM_result_inv {A B} (f : A → result B) l l' :
  mapM f l = Ok l' → Forall2 (λ x y, f x = Ok y) l l'.
Proof.
  revert l'. induction l as [|x l IH]; intros l'; simpl.
  - intros [= <-]. constructor.
  - destruct (f x) as [y|] eqn:Hx; simpl; [|done].
    destruct (mapM f l) as [k|]; simpl; [|done].
    intros [= <-]. constructor; auto.
Qed.

Lemma range_index_lookup {G A} (gdf : GeoDataFrame G A) l row :
  has_range_index gdf → (l, row) ∈ gdf →
  ∃ i : nat, l = Z.of_nat i ∧ gdf !! i = Some (l, row).
Proof.
  unfold has_range_index, index, RangeIndex. intros Hrange Hin.
  apply list_elem_of_lookup in Hin as [i Hi]. exists i. split; [|done].
  assert ((fst <$> gdf) !! i = Some l) as Hl by (by rewrite list_lookup_fmap, Hi).
  rewrite Hrange, list_lookup_fmap in Hl.
  rewrite lookup_seq_lt in Hl by (by eapply lookup_lt_Some). by injection Hl.
Qed.

(** Labels of a range index name one row each. *)
Lemma range_index_unique {G A} (gdf : GeoDataFrame G A) l row row' :
  has_range_index gdf → (l, row) ∈ gdf → (l, row') ∈ gdf → row = row'.
Proof.
  intros Hrange Hin Hin'.
  destruct (range_index_lookup _ _ _ Hrange Hin) as (i & -> & Hi).
  destruct (range_index_lookup _ _ _ Hrange Hin') as (i' & Heq & Hi').
  apply Nat2Z.inj in Heq as <-. congruence.
Qed.

Lemma boolean_index_elem {G A} (p : feature G A → bool) (gdf : GeoDataFrame G A) row :
  row ∈ boolean_index p gdf ↔ row ∈ gdf ∧ p row.2 = true.
Proof. unfold boolean_index. rewrite !list_elem_of_In. apply filter_In. Qed.

End PyFacts.

(** ** Subgraph builder: the rows of a new table *)

Section BuilderFacts.
Context {G : Type} `{!Shapely G}.
Import PyFacts.
Implicit Types (d : data G) (nb : feature G Neighborhood.attrs).

Lemma column_lookup {A B} (f : A → B) (gdf : GeoDataFrame G A) (i : nat) l row :
  gdf !! i = Some (l, row) → column f gdf !! i = Some (f (attrs row)).
Proof. intros Hi. unfold column. by rewrite list_lookup_fmap, Hi. Qed.

Lemma road_data_ok (roads_gdf : GeoDataFrame G Road.attrs) i road node_id p :
  has_range_index roads_gdf →
  (i, road) ∈ roads_gdf →
  split "_" node_id = ["road"; "start"; py_str i]
  ∨ split "_" node_id = ["road"; "end"; py_str i] →
  road_data roads_gdf (node_id, p)
  = Ok (road_node node_id (Road.class (attrs road)) (Road.length_m (attrs road))).
Proof.
  intros Hrange Hin Hsplit.
  destruct (range_index_lookup _ _ _ Hrange Hin) as (k & -> & Hk).
  unfold road_data.
  assert (py_index (split "_" node_id) 2 = Ok (py_str (Z.of_nat k))) as ->
    by (by destruct Hsplit as [-> | ->]).
  cbn [mbind result_bind]. rewrite py_int_py_str. cbn [mbind result_bind].
  rewrite (py_index_lookup _ k _ (column_lookup Road.class _ _ _ _ Hk)).
  rewrite (py_index_lookup _ k _ (column_lookup Road.length_m _ _ _ _ Hk)).
  done.
Qed.

Lemma road_endpoints_ok (row : Z * feature G Road.attrs) (buf : G) :
  intersects (geometry row.2) buf = true →
  ∃ pts, road_endpoints row = Ok pts
    ∧ pts.*1 = if String.eqb (geom_type (geometry row.2)) "LineString"
               then ["road_start_" +:+ py_str row.1; "road_end_" +:+ py_str row.1]
               else [].
Proof.
  destruct row as [i road]. simpl. intros Hint. unfold road_endpoints.
  destruct (String.eqb_spec (geom_type (geometry road)) "LineString") as [Hls|_].
  - destruct (py_index_first_last (coords (geometry road)))
      as (p & q & -> & ->); [by eapply intersects_coords|].
    by eexists.
  - by eexists.
Qed.

(** The two road loops, run over rows that are selected rows of the
    road layer, add exactly [road_rows] of each. *)
Lemma road_loops_ok (roads_gdf l : GeoDataFrame G Road.attrs) (buf : G) :
  has_range_index roads_gdf →
  (∀ row, row ∈ l → row ∈ roads_gdf ∧ intersects (geometry row.2) buf = true) →
  ∃ pts, mapM road_endpoints l = Ok pts
    ∧ mapM (road_data roads_gdf) (mjoin pts) = Ok (l ≫= road_rows).
Proof.
  intros Hrange. induction l as [|[i road] l IH]; intros Hl.
  - by exists [].
  - destruct IH as (pts & Hpts & Hnodes); [intros row ?; apply Hl; by right|].
    destruct (Hl (i, road)) as [Hin Hint]; [by left|].
    destruct (road_endpoints_ok (i, road) buf Hint) as (ps & Hps & Hids).
    exists (ps :: pts). rewrite mapM_result_cons, Hps, Hpts. split; [done|].
    change (mjoin (ps :: pts)) with (ps ++ mjoin pts).
    change (((i, road) :: l) ≫= road_rows) with (road_rows (i, road) ++ (l ≫= road_rows)).
    cbn [road_rows]. simpl in Hids.
    destruct (String.eqb (geom_type (geometry road)) "LineString").
    + destruct ps as [|[s p] [|[e q] [|? ?]]]; try discriminate.
      injection Hids as -> ->. cbn [app].
      rewrite !mapM_result_cons.
      rewrite (road_data_ok _ i road _ p Hrange Hin (or_introl (split_road_start i))).
      rewrite (road_data_ok _ i road _ q Hrange Hin (or_intror (split_road_end i))).
      by rewrite Hnodes.
    + destruct ps; [|discriminate]. exact Hnodes.
Qed.

(** Construction of a new table succeeds on validated roads: no
    exception is raised. *)
Lemma subgraph_nodes_ok d nb :
  has_range_index (roads d) →
  subgraph_nodes d nb = Ok (expected_nodes d nb, relevant_roads d nb ≫= road_rows).
Proof.
  intros Hrange. unfold subgraph_nodes.
  destruct (road_loops_ok (roads d) (relevant_roads d nb) (neigh_buffer nb) Hrange)
    as (pts & -> & Hnodes).
  { intros row Hrow. by apply boolean_index_elem in Hrow. }
  cbn [fmap result_fmap mbind result_bind]. by rewrite Hnodes.
Qed.

End BuilderFacts.

Section NodeOrigins.
Context {G : Type} `{!Shapely G}.
Import PyFacts.
Implicit Types (d : data G) (nb : feature G Neighborhood.attrs) (n : node).

Lemma road_rows_elem (row : Z * feature G Road.attrs) n :
  n ∈ road_rows row ↔
  geom_type (geometry row.2) = "LineString"
  ∧ (n = road_node ("road_start_" +:+ py_str row.1)
           (Road.class (attrs row.2)) (Road.length_m (attrs row.2))
     ∨ n = road_node ("road_end_" +:+ py_str row.1)
             (Road.class (attrs row.2)) (Road.length_m (attrs row.2))).
Proof.
  destruct row as [i r]. unfold road_rows. simpl.
  destruct (String.eqb_spec (geom_type (geometry r)) "LineString") as [Hls|Hls].
  - rewrite elem_of_cons, list_elem_of_singleton. tauto.
  - rewrite elem_of_nil. tauto.
Qed.

Lemma emitted_iff d nb n : n ∈ expected_nodes d nb ↔ emitted d nb n.
Proof.
  unfold expected_nodes, relevant_buildings, relevant_roads, relevant_trees,
    relevant_transit.
  rewrite elem_of_cons, !elem_of_app, !list_elem_of_fmap, list_elem_of_bind.
  split.
  - intros [-> | [([i b] & -> & Hb) | [([i r] & Hn & Hr) | [([i t] & -> & Ht)
      | ([i t] & -> & Ht)]]]].
    + constructor.
    + apply boolean_index_elem in Hb as [? ?]. by constructor.
    + apply boolean_index_elem in Hr as [? ?].
      apply road_rows_elem in Hn as [? [-> | ->]]; by constructor.
    + apply boolean_index_elem in Ht as [? ?]. by constructor.
    + apply boolean_index_elem in Ht as [? ?]. by constructor.
  - intros [| i b Hin Hw | i r Hin Hi Hls | i r Hin Hi Hls | i t Hin Hw | i t Hin Hw].
    + by left.
    + right; left. exists (i, b). split; [done|]. by apply boolean_index_elem.
    + right; right; left. exists (i, r).
      split; [apply road_rows_elem; auto | by apply boolean_index_elem].
    + right; right; left. exists (i, r).
      split; [apply road_rows_elem; auto | by apply boolean_index_elem].
    + do 3 right; left. exists (i, t). split; [done|]. by apply boolean_index_elem.
    + do 4 right. exists (i, t). split; [done|]. by apply boolean_index_elem.
Qed.

(** Identities of different kinds never coincide; within a kind the
    identity determines the row label. *)
Ltac clash H := exfalso; cbv [String.append] in H; congruence.
Ltac same_label H := apply String.app_inj, py_str_inj in H; subst.

Lemma building_origin d nb n i :
  emitted d nb n → vertex n = "building_" +:+ py_str i →
  ∃ b, (i, b) ∈ buildings d ∧ within (geometry b) (neigh_buffer nb) = true
       ∧ n = building_data (i, b).
Proof.
  intros [| j b ? ? | j r ? ? ? | j r ? ? ? | j t ? ? | j t ? ?] Hv;
    simpl in Hv; try clash Hv.
  same_label Hv. eauto.
Qed.

Lemma tree_origin d nb n i :
  emitted d nb n → vertex n = "tree_" +:+ py_str i →
  ∃ t, (i, t) ∈ trees d ∧ within (geometry t) (neigh_buffer nb) = true
       ∧ n = tree_data (i, t).
Proof.
  intros [| j b ? ? | j r ? ? ? | j r ? ? ? | j t ? ? | j t ? ?] Hv;
    simpl in Hv; try clash Hv.
  same_label Hv. eauto.
Qed.

Lemma transit_origin d nb n i :
  emitted d nb n → vertex n = "transit_" +:+ py_str i →
  ∃ t, (i, t) ∈ transit d ∧ within (geometry t) (neigh_buffer nb) = true
       ∧ n = transit_data (i, t).
Proof.
  intros [| j b ? ? | j r ? ? ? | j r ? ? ? | j t ? ? | j t ? ?] Hv;
    simpl in Hv; try clash Hv.
  same_label Hv. eauto.
Qed.

Lemma road_origin d nb n i :
  emitted d nb n →
  vertex n = "road_start_" +:+ py_str i ∨ vertex n = "road_end_" +:+ py_str i →
  ∃ r, (i, r) ∈ roads d ∧ intersects (geometry r) (neigh_buffer nb) = true
       ∧ geom_type (geometry r) = "LineString"
       ∧ n = road_node (vertex n) (Road.class (attrs r)) (Road.length_m (attrs r)).
Proof.
  intros [| j b ? ? | j r ? ? ? | j r ? ? ? | j t ? ? | j t ? ?] [Hv | Hv];
    simpl in Hv; try clash Hv; same_label Hv; eauto.
Qed.

End NodeOrigins.

(** ** Subgraph builder: selection, identities, first row *)

Section BuilderClaims.
Context {G : Type} `{!Shapely G}.
Import PyFacts.
Implicit Types (d : data G) (nb : feature G Neighborhood.attrs) (n : node).

(** C3, as the code has it.  The rows of a new table are selected
    against the buffer of the neighborhood geometry at distance 200: a
    building, tree or transit point gives a row exactly when it is
    [within] the buffer, so one outside it or only touching its boundary
    never appears.  A road is selected exactly when it [intersects] the
    buffer, whether or not it lies within it; a selected road is in the
    table, as its two endpoint rows, exactly when its geometry is a
    line string, and a selected road of another geometry type has no
    row. *)
Theorem buffer_selection d nb :
  wf_data d →
  ∃ all_nodes road_nodes,
    subgraph_nodes d nb = Ok (all_nodes, road_nodes)
    ∧ (∀ i b, (i, b) ∈ buildings d →
         if within (geometry b) (buffer (geometry nb) 200)
         then building_data (i, b) ∈ all_nodes
         else ∀ n, n ∈ all_nodes → vertex n ≠ "building_" +:+ py_str i)
    ∧ (∀ i r, (i, r) ∈ roads d →
         if intersects (geometry r) (buffer (geometry nb) 200)
         then ((i, r) ∈ relevant_roads d nb
               ∧ if String.eqb (geom_type (geometry r)) "LineString"
                 then road_node ("road_start_" +:+ py_str i)
                        (Road.class (attrs r)) (Road.length_m (attrs r)) ∈ all_nodes
                      ∧ road_node ("road_end_" +:+ py_str i)
                          (Road.class (attrs r)) (Road.length_m (attrs r)) ∈ all_nodes
                 else ∀ n, n ∈ all_nodes →
                        vertex n ≠ "road_start_" +:+ py_str i
                        ∧ vertex n ≠ "road_end_" +:+ py_str i)
         else (¬ ((i, r) ∈ relevant_roads d nb)
               ∧ (∀ n, n ∈ all_nodes →
                    vertex n ≠ "road_start_" +:+ py_str i
                    ∧ vertex n ≠ "road_end_" +:+ py_str i)))
    ∧ (∀ i t, (i, t) ∈ trees d →
         if within (geometry t) (buffer (geometry nb) 200)
         then tree_data (i, t) ∈ all_nodes
         else ∀ n, n ∈ all_nodes → vertex n ≠ "tree_" +:+ py_str i)
    ∧ (∀ i t, (i, t) ∈ transit d →
         if within (geometry t) (buffer (geometry nb) 200)
         then transit_data (i, t) ∈ all_nodes
         else ∀ n, n ∈ all_nodes → vertex n ≠ "transit_" +:+ py_str i).
Proof.
  intros (Hb & Hr & Ht & Hs).
  exists (expected_nodes d nb), (relevant_roads d nb ≫= road_rows).
  split; [by apply subgraph_nodes_ok|].
  change (buffer (geometry nb) 200) with (neigh_buffer nb).
  split; [|split; [|split]].
  - intros i b Hin. destruct (within (geometry b) (neigh_buffer nb)) eqn:Hw.
    + apply emitted_iff. by constructor.
    + intros n Hn Hv. apply emitted_iff in Hn.
      destruct (building_origin d nb n i Hn Hv) as (b' & Hin' & Hw' & _).
      rewrite (range_index_unique _ _ _ _ Hb Hin Hin') in Hw. congruence.
  - intros i r Hin. destruct (intersects (geometry r) (neigh_buffer nb)) eqn:Hi.
    + split; [by apply boolean_index_elem|].
      destruct (String.eqb_spec (geom_type (geometry r)) "LineString") as [Hls|Hls].
      * split; apply emitted_iff; by constructor.
      * intros n Hn. apply emitted_iff in Hn.
        split; intros Hv;
          (destruct (road_origin d nb n i Hn) as (r' & Hin' & _ & Hls' & _); [auto|]);
          by rewrite (range_index_unique _ _ _ _ Hr Hin Hin') in Hls.
    + split.
      * intros Hrel. apply boolean_index_elem in Hrel as [_ Hrel].
        simpl in Hrel. congruence.
      * intros n Hn. apply emitted_iff in Hn.
        split; intros Hv;
          (destruct (road_origin d nb n i Hn) as (r' & Hin' & Hi' & _); [auto|]);
          rewrite (range_index_unique _ _ _ _ Hr Hin Hin') in Hi; congruence.
  - intros i t Hin. destruct (within (geometry t) (neigh_buffer nb)) eqn:Hw.
    + apply emitted_iff. by constructor.
    + intros n Hn Hv. apply emitted_iff in Hn.
      destruct (tree_origin d nb n i Hn Hv) as (t' & Hin' & Hw' & _).
      rewrite (range_index_unique _ _ _ _ Ht Hin Hin') in Hw. congruence.
  - intros i t Hin. destruct (within (geometry t) (neigh_buffer nb)) eqn:Hw.
    + apply emitted_iff. by constructor.
    + intros n Hn Hv. apply emitted_iff in Hn.
      destruct (transit_origin d nb n i Hn Hv) as (t' & Hin' & Hw' & _).
      rewrite (range_index_unique _ _ _ _ Hs Hin Hin') in Hw. congruence.
Qed.

(** C8. On a validated road layer, a selected line-string road with row
    index [i] gives the rows [road_start_i] and [road_end_i]; the third
    piece of either identity parses back to [i]; and any row of the
    table with one of these identities carries the class and length of
    road row [i]. *)
Theorem road_identity_roundtrip d nb i r :
  has_range_index (roads d) →
  (i, r) ∈ roads d →
  intersects (geometry r) (neigh_buffer nb) = true →
  geom_type (geometry r) = "LineString" →
  ∃ all_nodes road_nodes,
    subgraph_nodes d nb = Ok (all_nodes, road_nodes)
    ∧ road_node ("road_start_" +:+ py_str i)
        (Road.class (attrs r)) (Road.length_m (attrs r)) ∈ all_nodes
    ∧ road_node ("road_end_" +:+ py_str i)
        (Road.class (attrs r)) (Road.length_m (attrs r)) ∈ all_nodes
    ∧ (py_index (split "_" ("road_start_" +:+ py_str i)) 2 ≫= py_int) = Ok i
    ∧ (py_index (split "_" ("road_end_" +:+ py_str i)) 2 ≫= py_int) = Ok i
    ∧ (∀ n, n ∈ all_nodes →
         vertex n = "road_start_" +:+ py_str i ∨ vertex n = "road_end_" +:+ py_str i →
         n = road_node (vertex n) (Road.class (attrs r)) (Road.length_m (attrs r))).
Proof.
  intros Hr Hin Hi Hls.
  exists (expected_nodes d nb), (relevant_roads d nb ≫= road_rows).
  split; [by apply subgraph_nodes_ok|].
  split; [apply emitted_iff; by constructor|].
  split; [apply emitted_iff; by constructor|].
  split; [rewrite split_road_start; apply py_int_py_str|].
  split; [rewrite split_road_end; apply py_int_py_str|].
  intros n Hn Hv. apply emitted_iff in Hn.
  destruct (road_origin d nb n i Hn Hv) as (r' & Hin' & _ & _ & Heq).
  by rewrite (range_index_unique _ _ _ _ Hr Hin Hin').
Qed.

(** C10. On a validated road layer, a road whose geometry type is not
    LineString gives no row: no row of the table has its start or end
    identity, and the road rows of the table are the endpoint rows of
    the selected line strings and nothing else. *)
Theorem non_linestring_no_endpoints d nb i r :
  has_range_index (roads d) →
  (i, r) ∈ roads d →
  geom_type (geometry r) ≠ "LineString" →
  ∃ all_nodes road_nodes,
    subgraph_nodes d nb = Ok (all_nodes, road_nodes)
    ∧ road_rows (i, r) = []
    ∧ (∀ n, n ∈ all_nodes →
         vertex n ≠ "road_start_" +:+ py_str i ∧ vertex n ≠ "road_end_" +:+ py_str i)
    ∧ (∀ n, n ∈ all_nodes → type n = "road" →
         ∃ j r', (j, r') ∈ relevant_roads d nb
                 ∧ geom_type (geometry r') = "LineString"
                 ∧ n ∈ road_rows (j, r')).
Proof.
  intros Hr Hin Hls.
  exists (expected_nodes d nb), (relevant_roads d nb ≫= road_rows).
  split; [by apply subgraph_nodes_ok|]. split; [|split].
  - unfold road_rows. by destruct (String.eqb_spec (geom_type (geometry r)) "LineString").
  - intros n Hn. apply emitted_iff in Hn.
    split; intros Hv;
      (destruct (road_origin d nb n i Hn) as (r' & Hin' & _ & Hls' & _); [auto|]);
      by rewrite (range_index_unique _ _ _ _ Hr Hin Hin') in Hls.
  - intros n Hn Hty. apply emitted_iff in Hn.
    destruct Hn as [| | j r' ? ? Hls' | j r' ? ? Hls' | |]; try discriminate;
      exists j, r'; (split; [by apply boolean_index_elem|]); (split; [done|]);
      apply road_rows_elem; auto.
Qed.

End BuilderClaims.

Lemma city_wf : wf_data City.city.
Proof. by repeat split. Qed.

Lemma buffer_selection_witness :
  wf_data City.city
  ∧ ∃ all_nodes road_nodes,
      subgraph_nodes City.city City.A = Ok (all_nodes, road_nodes)
      (* inside the buffer *)
      ∧ building_data (0, City.house 10 20) ∈ all_nodes
      (* touching the boundary of the buffer from outside *)
      ∧ intersects (geometry (City.house 300 350)) (buffer (geometry City.A) 200) = true
      ∧ (∀ n, n ∈ all_nodes → vertex n ≠ "building_1")
      (* a line string across the boundary *)
      ∧ within (Line.line_string 250 400) (buffer (geometry City.A) 200) = false
      ∧ road_node "road_start_0" (Some "residential") (Some (inject_Z 150)) ∈ all_nodes
      (* a multi-part line across the boundary *)
      ∧ (1, City.street "footway" (Line.multi_line_string 280 320))
          ∈ relevant_roads City.city City.A
      ∧ (∀ n, n ∈ all_nodes → vertex n ≠ "road_start_1" ∧ vertex n ≠ "road_end_1").
Proof.
  split; [exact city_wf|].
  destruct (buffer_selection City.city City.A city_wf)
    as (all_nodes & road_nodes & Hrun & Hb & Hr & _).
  exists all_nodes, road_nodes. split; [exact Hrun|].
  split; [apply (Hb 0 (City.house 10 20)); by left|].
  split; [reflexivity|].
  split; [apply (Hb 1 (City.house 300 350)); right; by left|].
  split; [reflexivity|].
  split; [apply (Hr 0 (City.street "residential" (Line.line_string 250 400))); by left|].
  apply (Hr 1 (City.street "footway" (Line.multi_line_string 280 320))). right; by left.
Defined.

(** C3 as the specification words it does not hold for every road: the
    footway of the city crosses the boundary of the buffer of [A] and
    is selected, yet the table of [A] has no row for it. *)
Lemma crossing_road_not_included :
  (1, City.street "footway" (Line.multi_line_string 280 320)) ∈ roads City.city
  ∧ intersects (Line.multi_line_string 280 320) (buffer (geometry City.A) 200) = true
  ∧ within (Line.multi_line_string 280 320) (buffer (geometry City.A) 200) = false
  ∧ ∃ all_nodes road_nodes,
      subgraph_nodes City.city City.A = Ok (all_nodes, road_nodes)
      ∧ vertex <$> all_nodes
        = ["neighborhood_A"; "building_0"; "road_start_0"; "road_end_0";
           "tree_0"; "transit_0"].
Proof.
  split; [right; by left|]. split; [reflexivity|]. split; [reflexivity|].
  eexists _, _. split; [vm_compute; reflexivity | reflexivity].
Qed.

Lemma road_identity_roundtrip_witness :
  has_range_index (roads City.city)
  ∧ ∃ all_nodes road_nodes,
      subgraph_nodes City.city City.A = Ok (all_nodes, road_nodes)
      ∧ road_node "road_end_0" (Some "residential") (Some (inject_Z 150)) ∈ all_nodes
      ∧ (py_index (split "_" "road_end_0") 2 ≫= py_int) = Ok 0.
Proof.
  split; [reflexivity|].
  destruct (road_identity_roundtrip City.city City.A 0
              (City.street "residential" (Line.line_string 250 400)))
    as (all_nodes & road_nodes & Hrun & _ & Hend & _ & Hparse & _);
    [reflexivity | by left | reflexivity | reflexivity |].
  exists all_nodes, road_nodes. auto.
Defined.

Lemma non_linestring_no_endpoints_witness :
  intersects (Line.multi_line_string 280 320) (neigh_buffer City.A) = true
  ∧ ∃ all_nodes road_nodes,
      subgraph_nodes City.city City.A = Ok (all_nodes, road_nodes)
      ∧ ∀ n, n ∈ all_nodes → vertex n ≠ "road_start_1" ∧ vertex n ≠ "road_end_1".
Proof.
  split; [reflexivity|].
  destruct (non_linestring_no_endpoints City.city City.A 1
              (City.street "footway" (Line.multi_line_string 280 320)))
    as (all_nodes & road_nodes & Hrun & _ & Hnone & _);
    [reflexivity | right; by left | discriminate |].
  exists all_nodes, road_nodes. auto.
Defined.

(** ** Subgraph builder: first row, cache, write errors *)

Section CacheClaims.
Context {G : Type} `{!Shapely G}.
Variable write : string → write_outcome.
Import PyFacts.
Implicit Types (d : data G) (nb : feature G Neighborhood.attrs) (n : node)
  (st : build_state) (fs : files).

Lemma road_data_type (roads_gdf : GeoDataFrame G Road.attrs) pt n :
  road_data roads_gdf pt = Ok n → type n = "road".
Proof.
  destruct pt as [node_id p]. unfold road_data.
  destruct (py_index (split "_" node_id) 2) as [part|]; [|done]. simpl.
  destruct (py_int part) as [r_idx|]; [|done]. simpl.
  destruct (py_index (column Road.class roads_gdf) r_idx); [|done]. simpl.
  destruct (py_index (column Road.length_m roads_gdf) r_idx); [|done]. simpl.
  by intros [= <-].
Qed.

(** Whatever the layers hold, a table that gets built starts with the
    neighborhood row and has no other row of that type. *)
Lemma subgraph_nodes_shape d nb all_nodes road_nodes :
  subgraph_nodes d nb = Ok (all_nodes, road_nodes) →
  ∃ rest, all_nodes = node_data nb :: rest
          ∧ Forall (λ n, type n ≠ "neighborhood") rest.
Proof.
  unfold subgraph_nodes.
  destruct (mapM road_endpoints (relevant_roads d nb)) as [pts|]; [|done].
  cbn [fmap result_fmap mbind result_bind].
  destruct (mapM (road_data (roads d)) (mjoin pts)) as [rn|] eqn:Hrn; [|done].
  cbn [mbind result_bind]. intros [= <- <-]. eexists. split; [done|].
  rewrite !Forall_app, !Forall_fmap. repeat split.
  - apply Forall_forall. by intros [? ?] _.
  - apply mapM_result_inv in Hrn.
    induction Hrn as [|pt n ? ? Hpt _ IH]; constructor; [|done].
    by rewrite (road_data_type _ _ _ Hpt).
  - apply Forall_forall. by intros [? ?] _.
  - apply Forall_forall. by intros [? ?] _.
Qed.

(** On validated roads, an iteration whose cache file can be written,
    or is there and complete, returns. *)
Lemma build_subgraph_returns d nb st fs :
  has_range_index (roads d) →
  write (subgraph_path (Neighborhood.LIE_NAME (attrs nb))) = Written →
  fs !! subgraph_path (Neighborhood.LIE_NAME (attrs nb)) ≠ Some Incomplete →
  ∃ st' fs', build_subgraph write d nb st fs = (Ok st', fs').
Proof.
  intros Hrange Hw Hfile. unfold build_subgraph.
  destruct (fs !! subgraph_path _) as [[cached|]|]; [by eauto | done |].
  rewrite (subgraph_nodes_ok d nb Hrange), Hw. by eauto.
Qed.

(** C6. A subgraph built on a cache miss has the neighborhood row as its
    first row, and a row of the table has type neighborhood exactly when
    it is row 0. *)
Theorem fresh_subgraph_one_neighborhood d nb st fs st' fs' :
  fs !! subgraph_path (Neighborhood.LIE_NAME (attrs nb)) = None →
  build_subgraph write d nb st fs = (Ok st', fs') →
  ∃ sd,
    subgraphs st' !! Neighborhood.LIE_NAME (attrs nb) = Some sd
    ∧ rows (nodes sd) !! 0%nat = Some (node_data nb)
    ∧ type (node_data nb) = "neighborhood"
    ∧ (∀ i n, rows (nodes sd) !! i = Some n → type n = "neighborhood" → i = 0%nat)
    ∧ length (List.filter Scorer.is_neighborhood (rows (nodes sd))) = 1%nat.
Proof.
  intros Hmiss. unfold build_subgraph. rewrite Hmiss.
  destruct (subgraph_nodes d nb) as [[all_nodes road_nodes]|] eqn:Hnodes; [|done].
  destruct (write _); [|done|done]. intros [= <- <-]. simpl.
  destruct (subgraph_nodes_shape _ _ _ _ Hnodes) as (rest & -> & Hrest).
  eexists. split; [apply lookup_insert_eq|]. simpl.
  split; [done|]. split; [done|]. split.
  - intros [|i] n Hi Hty; [done|]. simpl in Hi.
    apply list_elem_of_lookup_2 in Hi.
    rewrite Forall_forall in Hrest. by destruct (Hrest n Hi).
  - f_equal. clear Hnodes. induction Hrest as [|n rest Hn _ IH]; [done|].
    simpl. by rewrite (ScorerFacts.type_not_neighborhood n Hn).
Qed.

(** C2. After a successful build for a neighborhood name the cache holds
    the subgraph that was returned.  If the cache already held an entry,
    that entry is the pickle of what was returned, with the cache and
    the road list untouched.  Any further build for the same name, on
    whatever layers, returns the same subgraph again and changes nothing
    else. *)
Theorem build_subgraph_idempotent d nb st fs st1 fs1 :
  build_subgraph write d nb st fs = (Ok st1, fs1) →
  ∃ sd,
    subgraphs st1 !! Neighborhood.LIE_NAME (attrs nb) = Some sd
    ∧ fs1 !! subgraph_path (Neighborhood.LIE_NAME (attrs nb)) = Some (Pickle sd)
    ∧ (∀ cached,
         fs !! subgraph_path (Neighborhood.LIE_NAME (attrs nb)) = Some cached →
         cached = Pickle sd ∧ fs1 = fs
         ∧ road_network_nodes st1 = road_network_nodes st)
    ∧ (∀ d' nb' st2,
         Neighborhood.LIE_NAME (attrs nb') = Neighborhood.LIE_NAME (attrs nb) →
         build_subgraph write d' nb' st2 fs1
         = (Ok {| subgraphs :=
                    <[Neighborhood.LIE_NAME (attrs nb) := sd]> (subgraphs st2);
                  road_network_nodes := road_network_nodes st2 |}, fs1)).
Proof.
  unfold build_subgraph.
  destruct (fs !! subgraph_path (Neighborhood.LIE_NAME (attrs nb)))
    as [[cached|]|] eqn:Hfs; [| done |].
  - intros [= <- <-]. exists cached. simpl.
    split; [apply lookup_insert_eq|]. split; [done|]. split.
    + by intros ? [= <-].
    + intros d' nb' st2 ->. by rewrite Hfs.
  - destruct (subgraph_nodes d nb) as [[all_nodes road_nodes]|]; [|done].
    destruct (write _); [|done|done]. intros [= <- <-]. eexists. simpl.
    split; [apply lookup_insert_eq|]. split; [apply lookup_insert_eq|]. split.
    + done.
    + intros d' nb' st2 ->. by rewrite lookup_insert_eq.
Qed.

Lemma build_loop_app d (l1 l2 : GeoDataFrame G Neighborhood.attrs) st fs :
  build_loop write d (l1 ++ l2) st fs
  = match build_loop write d l1 st fs with
    | (Ok st', fs') => build_loop write d l2 st' fs'
    | (Raise e, fs') => (Raise e, fs')
    end.
Proof.
  revert st fs. induction l1 as [|row l1 IH]; intros st fs; [done|].
  simpl. destruct (build_subgraph write d row.2 st fs) as [[st'|e] fs']; [apply IH | done].
Qed.

(** C7, as the code has it.  When writing the cache file of a
    neighborhood fails, whether the file cannot be opened or
    [pickle.dump] fails after it was opened, the exception leaves
    [build_graph]: the loop stops at that neighborhood, no subgraphs are
    returned, and [main] ends in its handler with the error, whatever
    the later stages would do.  The cache keeps what earlier iterations
    wrote; a failure to open adds nothing to it, a failure of
    [pickle.dump] leaves an incomplete file at the path. *)
Theorem cache_write_error_propagates d pre row post st fs fs1 later :
  neighborhoods d = pre ++ row :: post →
  has_range_index (roads d) →
  build_loop write d pre {| subgraphs := ∅; road_network_nodes := [] |} fs = (Ok st, fs1) →
  fs1 !! subgraph_path (Neighborhood.LIE_NAME (attrs row.2)) = None →
  write (subgraph_path (Neighborhood.LIE_NAME (attrs row.2))) ≠ Written →
  ∃ fs2,
    build_graph write d fs
    = (Raise (OSError (subgraph_path (Neighborhood.LIE_NAME (attrs row.2)))), fs2)
    ∧ main write (Ok d) later fs
      = (Error_during_analysis
           (OSError (subgraph_path (Neighborhood.LIE_NAME (attrs row.2)))), fs2)
    ∧ (write (subgraph_path (Neighborhood.LIE_NAME (attrs row.2))) = Open_fails →
       fs2 = fs1)
    ∧ (write (subgraph_path (Neighborhood.LIE_NAME (attrs row.2))) = Dump_fails →
       fs2 = <[subgraph_path (Neighborhood.LIE_NAME (attrs row.2)) := Incomplete]> fs1).
Proof.
  intros Hnbs Hrange Hpre Hmiss Hro.
  assert (∃ fs2,
            build_graph write d fs
            = (Raise (OSError (subgraph_path (Neighborhood.LIE_NAME (attrs row.2)))), fs2)
            ∧ (write (subgraph_path (Neighborhood.LIE_NAME (attrs row.2))) = Open_fails →
               fs2 = fs1)
            ∧ (write (subgraph_path (Neighborhood.LIE_NAME (attrs row.2))) = Dump_fails →
               fs2 = <[subgraph_path (Neighborhood.LIE_NAME (attrs row.2)) := Incomplete]>
                       fs1))
    as (fs2 & Hrun & Hopen & Hdump).
  { unfold build_graph. rewrite Hnbs, build_loop_app, Hpre. simpl.
    unfold build_subgraph. rewrite Hmiss, (subgraph_nodes_ok d row.2 Hrange).
    destruct (write (subgraph_path (Neighborhood.LIE_NAME (attrs row.2)))); [done| |];
      eexists; (split; [reflexivity|]); by split. }
  exists fs2. split; [exact Hrun|]. split; [|by split].
  unfold main. by rewrite Hrun.
Qed.

End CacheClaims.

Lemma fresh_subgraph_one_neighborhood_witness :
  (∅ : files) !! subgraph_path "A" = None
  ∧ ∃ st' fs' sd,
      build_subgraph City.always_writable City.city City.A City.no_subgraphs ∅
      = (Ok st', fs')
      ∧ subgraphs st' !! "A" = Some sd
      ∧ rows (nodes sd) !! 0%nat = Some (node_data City.A)
      ∧ length (List.filter Scorer.is_neighborhood (rows (nodes sd))) = 1%nat.
Proof.
  split; [reflexivity|].
  destruct (build_subgraph_returns City.always_writable City.city City.A
              City.no_subgraphs ∅ eq_refl eq_refl) as (st' & fs' & Hrun);
    [by rewrite lookup_empty|].
  destruct (fresh_subgraph_one_neighborhood City.always_writable City.city City.A
              City.no_subgraphs ∅ st' fs' (lookup_empty _) Hrun)
    as (sd & Hsd & Hfirst & _ & _ & Hone).
  exists st', fs', sd. auto.
Defined.

Lemma build_subgraph_idempotent_witness :
  ∃ st1 fs1 sd,
    build_subgraph City.always_writable City.city City.A City.no_subgraphs ∅
    = (Ok st1, fs1)
    ∧ subgraphs st1 !! "A" = Some sd
    ∧ build_subgraph City.always_writable City.city City.A' st1 fs1
      = (Ok {| subgraphs := <["A" := sd]> (subgraphs st1);
               road_network_nodes := road_network_nodes st1 |}, fs1).
Proof.
  destruct (build_subgraph_returns City.always_writable City.city City.A
              City.no_subgraphs ∅ eq_refl eq_refl) as (st1 & fs1 & Hrun);
    [by rewrite lookup_empty|].
  destruct (build_subgraph_idempotent City.always_writable City.city City.A
              City.no_subgraphs ∅ st1 fs1 Hrun)
    as (sd & Hsd & _ & _ & Hagain).
  exists st1, fs1, sd. split; [exact Hrun|]. split; [exact Hsd|].
  apply (Hagain City.city City.A' st1). reflexivity.
Defined.

Lemma cache_write_error_propagates_witness :
  (City.locked_A (subgraph_path "A") = Open_fails
   ∧ build_graph City.locked_A City.city ∅ = (Raise (OSError (subgraph_path "A")), ∅)
   ∧ main City.locked_A (Ok City.city) (λ _, Ok ()) ∅
     = (Error_during_analysis (OSError (subgraph_path "A")), ∅))
  ∧ (City.disk_full_A (subgraph_path "A") = Dump_fails
     ∧ build_graph City.disk_full_A City.city ∅
       = (Raise (OSError (subgraph_path "A")), <[subgraph_path "A" := Incomplete]> ∅)
     ∧ main City.disk_full_A (Ok City.city) (λ _, Ok ()) ∅
       = (Error_during_analysis (OSError (subgraph_path "A")),
          <[subgraph_path "A" := Incomplete]> ∅)).
Proof.
  split.
  - split; [reflexivity|].
    destruct (cache_write_error_propagates City.locked_A City.city [] (0, City.A)
                [(1, City.B)] City.no_subgraphs ∅ ∅ (λ _, Ok ())
                eq_refl eq_refl eq_refl (lookup_empty _))
      as (fs2 & Hrun & Hmain & Hopen & _); [discriminate|].
    rewrite (Hopen eq_refl) in Hrun, Hmain. by split.
  - split; [reflexivity|].
    destruct (cache_write_error_propagates City.disk_full_A City.city [] (0, City.A)
                [(1, City.B)] City.no_subgraphs ∅ ∅ (λ _, Ok ())
                eq_refl eq_refl eq_refl (lookup_empty _))
      as (fs2 & Hrun & Hmain & _ & Hdump); [discriminate|].
    rewrite (Hdump eq_refl) in Hrun, Hmain. by split.
Defined.

(** C7 as the specification words it does not hold.  With the cache file
    of [A] locked and that of [B] writable, the run returns no subgraph
    for [A], never reaches [B], and [main] ends with the error. *)
Lemma cache_write_error_not_tolerated :
  City.locked_A (subgraph_path "A") = Open_fails
  ∧ City.locked_A (subgraph_path "B") = Written
  ∧ ¬ (∃ st fs',
         build_graph City.locked_A City.city ∅ = (Ok st, fs')
         ∧ is_Some (subgraphs st !! "A"))
  ∧ (build_graph City.locked_A City.city ∅).2 !! subgraph_path "B" = None
  ∧ (main City.locked_A (Ok City.city) (λ _, Ok ()) ∅).1
    = Error_during_analysis (OSError (subgraph_path "A")).
Proof.
  assert (build_graph City.locked_A City.city ∅
          = (Raise (OSError (subgraph_path "A")), ∅)) as Hrun
    by (vm_compute; reflexivity).
  split; [reflexivity|]. split; [reflexivity|]. split; [|split].
  - intros (st & fs' & Hok & _). rewrite Hrun in Hok. discriminate.
  - by rewrite Hrun.
  - unfold main. by rewrite Hrun.
Qed.

(** ** Running [build_graph] again on the cache it left *)

Section Rerun.
Context {G : Type} `{!Shapely G}.
Variable write : string → write_outcome.
Implicit Types (d : data G) (nb : feature G Neighborhood.attrs)
  (st : build_state) (fs : files) (l : GeoDataFrame G Neighborhood.attrs).

Lemma string_length_app s t : String.length (s +:+ t) = (String.length s + String.length t)%nat.
Proof.
  induction s as [|c s IH]; [done|].
  change (S (String.length (s +:+ t)) = S (String.length s + String.length t)).
  by rewrite IH.
Qed.

Lemma string_app_inj_r t s s' : s +:+ t = s' +:+ t → s = s'.
Proof.
  revert s'. induction s as [|c s IH]; intros [|c' s'] Heq; [done| | |].
  - apply (f_equal String.length) in Heq.
    rewrite (string_length_app (String c' s') t) in Heq.
    change ("" +:+ t) with t in Heq. simpl in Heq. lia.
  - apply (f_equal String.length) in Heq.
    rewrite (string_length_app (String c s) t) in Heq.
    change ("" +:+ t) with t in Heq. simpl in Heq. lia.
  - change (String c (s +:+ t) = String c' (s' +:+ t)) in Heq.
    injection Heq as -> Heq. f_equal. by apply IH.
Qed.

(** Distinct neighborhood names have distinct cache files. *)
Lemma subgraph_path_inj k k' : subgraph_path k = subgraph_path k' → k = k'.
Proof.
  unfold subgraph_path, path_join. intros Heq.
  do 3 apply String.app_inj in Heq. by apply string_app_inj_r in Heq.
Qed.

Lemma build_subgraph_inv d nb st fs st' fs' :
  cache_agrees st fs →
  build_subgraph write d nb st fs = (Ok st', fs') →
  cache_agrees st' fs'
  ∧ (∀ p x, fs !! p = Some x → fs' !! p = Some x)
  ∧ is_Some (subgraphs st' !! Neighborhood.LIE_NAME (attrs nb))
  ∧ (∀ k, k ≠ Neighborhood.LIE_NAME (attrs nb) → subgraphs st' !! k = subgraphs st !! k).
Proof.
  intros Hinv. unfold build_subgraph.
  destruct (fs !! subgraph_path (Neighborhood.LIE_NAME (attrs nb)))
    as [[cached|]|] eqn:Hfs; [| done |].
  - intros [= <- <-]. simpl. repeat split.
    + intros k sd. simpl.
      destruct (decide (k = Neighborhood.LIE_NAME (attrs nb))) as [->|Hne].
      * rewrite lookup_insert_eq. congruence.
      * rewrite lookup_insert_ne by done. apply Hinv.
    + done.
    + rewrite lookup_insert_eq. by eexists.
    + intros k Hne. by rewrite lookup_insert_ne.
  - destruct (subgraph_nodes d nb) as [[all_nodes road_nodes]|]; [|done].
    destruct (write _); [|done|done]. intros [= <- <-]. simpl. repeat split.
    + intros k sd. simpl.
      destruct (decide (k = Neighborhood.LIE_NAME (attrs nb))) as [->|Hne].
      * rewrite !lookup_insert_eq. congruence.
      * rewrite !lookup_insert_ne; [apply Hinv | | done].
        intros Hp. by apply subgraph_path_inj in Hp.
    + intros p x Hp. rewrite lookup_insert_ne; [done|congruence].
    + rewrite lookup_insert_eq. by eexists.
    + intros k Hne. by rewrite lookup_insert_ne.
Qed.

Lemma build_loop_inv d l st fs st' fs' :
  cache_agrees st fs →
  build_loop write d l st fs = (Ok st', fs') →
  cache_agrees st' fs'
  ∧ (∀ row, row ∈ l → is_Some (subgraphs st' !! name_of row))
  ∧ (∀ k, (∀ row, row ∈ l → name_of row ≠ k) → subgraphs st' !! k = subgraphs st !! k).
Proof.
  revert st fs. induction l as [|row l IH]; intros st fs Hinv; simpl.
  - intros [= <- <-]. split; [done|]. split; [|done]. intros row Hrow. by apply elem_of_nil in Hrow.
  - destruct (build_subgraph write d row.2 st fs) as [[st1|] fs1] eqn:Hstep; [|done].
    intros Hloop.
    destruct (build_subgraph_inv _ _ _ _ _ _ Hinv Hstep) as (Hinv1 & _ & Hrow & Hother).
    destruct (IH _ _ Hinv1 Hloop) as (Hinv' & Hall & Hrest).
    split; [done|]. split.
    + intros row' [-> | Hin]%elem_of_cons; [|by apply Hall].
      destruct (decide (name_of row ∈ name_of <$> l)) as [Hdup|Hfresh].
      * apply list_elem_of_fmap in Hdup as (row' & -> & Hin). by apply Hall.
      * rewrite Hrest; [done|]. intros row' Hin Heq. apply Hfresh.
        apply list_elem_of_fmap. by exists row'.
    + intros k Hk. rewrite Hrest by (intros row' Hin; apply Hk; by right).
      apply Hother. intros ->. by apply (Hk row); [left|].
Qed.

(** On a cache that has a file for every neighborhood, the loop only
    reads: no file is written and no road row is collected. *)
Lemma build_loop_cached d l st fs (target : gmap string subgraph_data) :
  (∀ row, row ∈ l → ∃ sd, target !! name_of row = Some sd
                          ∧ fs !! subgraph_path (name_of row) = Some (Pickle sd)) →
  (∀ k sd, subgraphs st !! k = Some sd → target !! k = Some sd) →
  ∃ st', build_loop write d l st fs = (Ok st', fs)
    ∧ road_network_nodes st' = road_network_nodes st
    ∧ (∀ k sd, subgraphs st' !! k = Some sd → target !! k = Some sd)
    ∧ (∀ row, row ∈ l → is_Some (subgraphs st' !! name_of row))
    ∧ (∀ k, (∀ row, row ∈ l → name_of row ≠ k) → subgraphs st' !! k = subgraphs st !! k).
Proof.
  revert st. induction l as [|row l IH]; intros st Hfiles Hsub.
  - exists st. repeat split; try done. intros row Hrow. by apply elem_of_nil in Hrow.
  - destruct (Hfiles row) as (sd & Htarget & Hfile); [by left|].
    cbn [build_loop]. unfold build_subgraph. unfold name_of in Hfile. rewrite Hfile.
    destruct (IH {| subgraphs := <[Neighborhood.LIE_NAME (attrs row.2) := sd]> (subgraphs st);
                    road_network_nodes := road_network_nodes st |})
      as (st' & Hloop & Hroads & Hsub' & Hall & Hrest).
    { intros row' Hin. apply Hfiles. by right. }
    { intros k sd'. simpl.
      destruct (decide (k = Neighborhood.LIE_NAME (attrs row.2))) as [->|Hne].
      - rewrite lookup_insert_eq. intros [= <-]. exact Htarget.
      - rewrite lookup_insert_ne by done. apply Hsub. }
    exists st'. split; [done|]. split; [done|]. split; [done|]. split.
    + intros row' [-> | Hin]%elem_of_cons; [|by apply Hall].
      destruct (decide (name_of row ∈ name_of <$> l)) as [Hdup|Hfresh].
      * apply list_elem_of_fmap in Hdup as (row' & -> & Hin). by apply Hall.
      * rewrite Hrest.
        -- simpl. unfold name_of. rewrite lookup_insert_eq. by eexists.
        -- intros row' Hin Heq. apply Hfresh. apply list_elem_of_fmap. by exists row'.
    + intros k Hk. rewrite Hrest by (intros row' Hin; apply Hk; by right).
      simpl. rewrite lookup_insert_ne; [done|]. intros Heq. by apply (Hk row); [left|].
Qed.

(** A second run of [build_graph] on the cache left by a first run
    returns the same subgraphs, writes nothing and collects no road
    rows. *)
Lemma build_graph_rerun d fs st fs1 :
  build_graph write d fs = (Ok st, fs1) →
  build_graph write d fs1
  = (Ok {| subgraphs := subgraphs st; road_network_nodes := [] |}, fs1).
Proof.
  unfold build_graph. intros Hrun.
  assert (cache_agrees {| subgraphs := ∅; road_network_nodes := [] |} fs) as Hinit
    by (by intros k sd Hk).
  destruct (build_loop_inv d _ _ _ _ _ Hinit Hrun) as (Hinv & Hall & Hrest).
  destruct (build_loop_cached d (neighborhoods d)
              {| subgraphs := ∅; road_network_nodes := [] |} fs1 (subgraphs st))
    as ([subs roads] & -> & Hroads & Hsub & Hall' & Hrest').
  { intros row Hrow. destruct (Hall row Hrow) as [sd Hsd]. exists sd. split; [done|]. by apply Hinv. }
  { by intros k sd Hk. }
  simpl in *. subst roads. do 3 f_equal. apply map_eq. intros k.
  destruct (decide (k ∈ name_of <$> neighborhoods d)) as [Hk|Hk].
  - apply list_elem_of_fmap in Hk as (row & -> & Hrow).
    destruct (Hall' row Hrow) as [sd Hsd]. rewrite Hsd. symmetry. by apply Hsub.
  - rewrite Hrest', Hrest; [done| |];
      intros row Hrow Heq; apply Hk; apply list_elem_of_fmap; by exists row.
Qed.

(** An iteration that returns leaves no incomplete file behind. *)
Lemma build_subgraph_complete d nb st fs st' fs' p :
  build_subgraph write d nb st fs = (Ok st', fs') →
  fs' !! p = Some Incomplete → fs !! p = Some Incomplete.
Proof.
  unfold build_subgraph.
  destruct (fs !! subgraph_path (Neighborhood.LIE_NAME (attrs nb))) as [[cached|]|];
    [by intros [= <- <-] | done |].
  destruct (subgraph_nodes d nb) as [[all_nodes road_nodes]|]; [|done].
  destruct (write _); [|done|done]. intros [= <- <-].
  destruct (decide (p = subgraph_path (Neighborhood.LIE_NAME (attrs nb)))) as [->|Hne].
  - by rewrite lookup_insert_eq.
  - by rewrite lookup_insert_ne.
Qed.

(** On validated roads and a writable cache directory, the loop returns
    when none of its neighborhoods has an incomplete cache file. *)
Lemma build_loop_returns d l st fs :
  has_range_index (roads d) →
  (∀ p, write p = Written) →
  (∀ row, row ∈ l → fs !! subgraph_path (name_of row) ≠ Some Incomplete) →
  ∃ st' fs', build_loop write d l st fs = (Ok st', fs').
Proof.
  intros Hrange Hw. revert st fs.
  induction l as [|row l IH]; intros st fs Hfiles; [by eauto|].
  simpl. destruct (build_subgraph_returns write d row.2 st fs Hrange (Hw _))
    as (st' & fs' & Hstep); [apply Hfiles; by left|].
  rewrite Hstep. apply IH. intros row' Hin Hbad. apply (Hfiles row'); [by right|].
  by eapply build_subgraph_complete.
Qed.

Lemma build_graph_returns d fs :
  has_range_index (roads d) →
  (∀ p, write p = Written) →
  (∀ row, row ∈ neighborhoods d → fs !! subgraph_path (name_of row) ≠ Some Incomplete) →
  ∃ st fs', build_graph write d fs = (Ok st, fs').
Proof. intros Hrange Hw Hfiles. by apply build_loop_returns. Qed.

End Rerun.

(* ===================================================================== *)
(** * Part III. Further properties of the same code                       *)
(* ===================================================================== *)

(** ** Scorer: range, missing values, repeated scoring *)

Section ScorerExtras.
Import Scorer ScorerFacts.
Local Open Scope Q_scope.

Lemma tree_score_nonneg (tc : Z) : (0 <= tc)%Z → 0 <= tree_score tc.
Proof.
  intros Hle. unfold tree_score, clip_upper.
  assert (0 <= Qmin (inject_Z tc / 100) 1) as Hmin; [|lra].
  apply Q.min_glb; [|done].
  apply Qle_shift_div_l; [done|]. rewrite Zle_Qle in Hle.
  rewrite Qmult_0_l. exact Hle.
Qed.

Lemma transit_score_nonneg (tr : Z) : (0 <= tr)%Z → 0 <= transit_score tr.
Proof.
  intros Hle. unfold transit_score, clip_upper.
  assert (0 <= Qmin (inject_Z tr / 20) 1) as Hmin; [|lra].
  apply Q.min_glb; [|done].
  apply Qle_shift_div_l; [done|]. rewrite Zle_Qle in Hle.
  rewrite Qmult_0_l. exact Hle.
Qed.

Lemma land_use_score_nonneg (r c e : Q) :
  0 <= r → 0 <= c → 0 <= e → 0 <= land_use_score r c e.
Proof.
  intros Hr Hc He. unfold land_use_score.
  apply Qle_shift_div_l; [done|]. lra.
Qed.

(** X1. The score of a neighborhood row is never above 1.  Nothing clamps
    it from below: with percentages and counts not negative and [ndvi]
    at least -1 it is at least -0.2, and that value is reached when
    [ndvi] is -1 and everything else is 0. *)
Theorem score_range (df : nodes_df) (i : nat)
    (v name : string) (pop : cell) (r c e : Q) (ndvi : cell) (tc tr : Z) :
  wf_nodes_df df →
  rows df !! i = Some (neighborhood_node v name pop (Some r) (Some c) (Some e) ndvi tc tr) →
  ∃ w : Q,
    score_at df i = Some (Some w)
    ∧ w <= 1
    ∧ (0 <= r → 0 <= c → 0 <= e → -1 <= fillna 0 ndvi → (0 <= tc)%Z → (0 <= tr)%Z →
       -0.2 <= w)
    ∧ (r == 0 → c == 0 → e == 0 → fillna 0 ndvi == -1 → tc = 0%Z → tr = 0%Z →
       w == -0.2).
Proof.
  intros Hwf Hi.
  exists (walkability r c e (fillna 0 ndvi) tc tr).
  split; [by rewrite (score_at_row df i _ Hwf Hi)|].
  unfold walkability, clip_upper. split; [apply Q.le_min_r|]. split.
  - intros Hr Hc He Hn Htc Htr. apply Q.min_glb; [|done].
    pose proof (land_use_score_nonneg r c e Hr Hc He).
    pose proof (tree_score_nonneg tc Htc).
    pose proof (transit_score_nonneg tr Htr).
    unfold ndvi_score. lra.
  - intros Hr Hc He Hn -> ->. unfold land_use_score, ndvi_score.
    rewrite Hr, Hc, He, Hn. vm_compute. reflexivity.
Qed.

Lemma score_range_witness :
  ∃ w : Q, score_at (City.table_of City.A) 0 = Some (Some w) ∧ w <= 1 ∧ -0.2 <= w.
Proof.
  assert (wf_nodes_df (City.table_of City.A)) as Hwf by (intros col; discriminate).
  destruct (score_range (City.table_of City.A) 0 _ _ _ _ _ _ _ _ _ Hwf eq_refl)
    as (w & Hw & Hle & Hge & _).
  exists w. split; [exact Hw|]. split; [exact Hle|].
  apply Hge; vm_compute; congruence.
Defined.

(** X2. The score written at a neighborhood row is NaN exactly when one
    of the three land-use percentages is missing; a missing [ndvi_mean]
    does not make it NaN. *)
Theorem score_nan_iff (df : nodes_df) (i : nat)
    (v name : string) (pop r c e ndvi : cell) (tc tr : Z) :
  wf_nodes_df df →
  rows df !! i = Some (neighborhood_node v name pop r c e ndvi tc tr) →
  score_at df i = Some None ↔ r = None ∨ c = None ∨ e = None.
Proof.
  intros Hwf Hi. rewrite (score_at_row df i _ Hwf Hi). simpl.
  destruct r, c, e; simpl; split; intros H; try discriminate; auto;
    destruct H as [H | [H | H]]; discriminate.
Qed.

Lemma score_nan_iff_witness :
  score_at {| rows := [neighborhood_node "neighborhood_A" "A" None (Some 10) None
                         (Some 0) (Some 1) 5 5];
              walkability_rule := None |} 0 = Some None.
Proof.
  apply (score_nan_iff _ 0 "neighborhood_A" "A" None (Some 10) None (Some 0) (Some 1) 5 5);
    [intros col; discriminate | reflexivity | auto].
Defined.

Lemma loc_assign_again (f : node → cell) (l : list node) (col : list cell) :
  length col = length l →
  loc_assign (is_neighborhood <$> l)
    (loc_assign (is_neighborhood <$> l) col (f <$> List.filter is_neighborhood l))
    (f <$> List.filter is_neighborhood l)
  = loc_assign (is_neighborhood <$> l) col (f <$> List.filter is_neighborhood l).
Proof.
  revert col. induction l as [|n l IH]; intros [|x col] Hlen; simpl in *; try done.
  destruct (is_neighborhood n); simpl; rewrite IH; auto with lia.
Qed.

(** X3. Scoring a table that is already scored changes nothing. *)
Theorem compute_walkability_scores_idempotent (df : nodes_df) :
  wf_nodes_df df →
  compute_walkability_scores (compute_walkability_scores df)
  = compute_walkability_scores df.
Proof.
  intros Hwf. pose proof (ensure_column_length df Hwf) as Hlen.
  unfold compute_walkability_scores.
  destruct (length (List.filter is_neighborhood (rows df)) =? 0)%nat eqn:Hnone;
    cbn [rows walkability_rule]; rewrite Hnone; unfold ensure_column at 1;
    cbn [rows walkability_rule]; [done|].
  by rewrite loc_assign_again.
Qed.

Lemma compute_walkability_scores_idempotent_witness :
  compute_walkability_scores (compute_walkability_scores (City.table_of City.B))
  = compute_walkability_scores (City.table_of City.B).
Proof.
  apply compute_walkability_scores_idempotent. intros col. discriminate.
Defined.

Lemma transit_score_mono (tr tr' : Z) : (tr <= tr')%Z → transit_score tr <= transit_score tr'.
Proof.
  intros Hle. unfold transit_score, clip_upper.
  assert (inject_Z tr / 20 <= inject_Z tr' / 20) as Hdiv
    by (apply Qmult_le_compat_r; [by rewrite <- Zle_Qle | done]).
  pose proof (Q.min_le_compat_r _ _ 1 Hdiv) as Hmin. lra.
Qed.

Lemma transit_score_saturated (tr : Z) : (20 <= tr)%Z → transit_score tr == 0.2.
Proof.
  intros Hle. unfold transit_score, clip_upper.
  rewrite Q.min_r; [reflexivity|].
  apply Qle_shift_div_l; [done|]. rewrite Zle_Qle in Hle.
  rewrite Qmult_1_l. exact Hle.
Qed.

Lemma land_use_score_mono (r c e r' c' e' : Q) :
  r <= r' → c <= c' → e <= e' → land_use_score r c e <= land_use_score r' c' e'.
Proof.
  intros Hr Hc He. unfold land_use_score.
  apply Qmult_le_compat_r; [lra | done].
Qed.

(** X4. The score is monotone in every input: raising any of the three
    land-use percentages, [ndvi] or either count, the others not
    lowered, never lowers the score of the row. *)
Theorem score_monotone (df df' : nodes_df) (i : nat) (v name : string) (pop : cell)
    (r c e r' c' e' : Q) (ndvi ndvi' : cell) (tc tr tc' tr' : Z) :
  wf_nodes_df df →
  wf_nodes_df df' →
  rows df !! i = Some (neighborhood_node v name pop (Some r) (Some c) (Some e) ndvi tc tr) →
  rows df' !! i
  = Some (neighborhood_node v name pop (Some r') (Some c') (Some e') ndvi' tc' tr') →
  r <= r' → c <= c' → e <= e' → fillna 0 ndvi <= fillna 0 ndvi' →
  (tc <= tc')%Z → (tr <= tr')%Z →
  ∃ w w' : Q,
    score_at df i = Some (Some w) ∧ score_at df' i = Some (Some w') ∧ w <= w'.
Proof.
  intros Hwf Hwf' Hi Hi' Hr Hc He Hn Htc Htr.
  exists (walkability r c e (fillna 0 ndvi) tc tr),
         (walkability r' c' e' (fillna 0 ndvi') tc' tr').
  split; [by rewrite (score_at_row df i _ Hwf Hi)|].
  split; [by rewrite (score_at_row df' i _ Hwf' Hi')|].
  unfold walkability, clip_upper. apply Q.min_le_compat_r.
  pose proof (land_use_score_mono _ _ _ _ _ _ Hr Hc He).
  pose proof (tree_score_mono tc tc' Htc).
  pose proof (transit_score_mono tr tr' Htr).
  unfold ndvi_score. lra.
Qed.

Lemma score_monotone_witness :
  ∃ w w' : Q,
    score_at (City.table_of City.A) 0 = Some (Some w)
    ∧ score_at (City.table_of City.A') 0 = Some (Some w')
    ∧ w <= w'.
Proof.
  assert (∀ nb, wf_nodes_df (City.table_of nb)) as Hwf by (intros nb col; discriminate).
  apply (score_monotone (City.table_of City.A) (City.table_of City.A') 0
           _ _ _ _ _ _ _ _ _ _ _ _ _ _ _ (Hwf _) (Hwf _) eq_refl eq_refl);
    vm_compute; congruence.
Defined.

(** X5. [transit_count] stops mattering at 20: two rows that differ only
    in a transit count of 20 or more get the same score. *)
Theorem transit_count_saturates (df df' : nodes_df) (i : nat)
    (v name : string) (pop : cell) (r c e : Q) (ndvi : cell) (tc tr tr' : Z) :
  wf_nodes_df df →
  wf_nodes_df df' →
  rows df !! i = Some (neighborhood_node v name pop (Some r) (Some c) (Some e) ndvi tc tr) →
  rows df' !! i = Some (neighborhood_node v name pop (Some r) (Some c) (Some e) ndvi tc tr') →
  (20 <= tr)%Z → (20 <= tr')%Z →
  ∃ w w' : Q,
    score_at df i = Some (Some w) ∧ score_at df' i = Some (Some w') ∧ w == w'.
Proof.
  intros Hwf Hwf' Hi Hi' Htr Htr'.
  exists (walkability r c e (fillna 0 ndvi) tc tr),
         (walkability r c e (fillna 0 ndvi) tc tr').
  split; [by rewrite (score_at_row df i _ Hwf Hi)|].
  split; [by rewrite (score_at_row df' i _ Hwf' Hi')|].
  unfold walkability, clip_upper. apply Q.min_compat; [|reflexivity].
  by rewrite (transit_score_saturated tr), (transit_score_saturated tr').
Qed.

Lemma transit_count_saturates_witness :
  ∃ w w' : Q,
    score_at (City.table_of City.B) 0 = Some (Some w)
    ∧ score_at (City.table_of City.B') 0 = Some (Some w')
    ∧ w == w'.
Proof.
  assert (∀ nb, wf_nodes_df (City.table_of nb)) as Hwf by (intros nb col; discriminate).
  apply (transit_count_saturates (City.table_of City.B) (City.table_of City.B') 0
           _ _ _ _ _ _ _ _ 40%Z 25%Z (Hwf _) (Hwf _) eq_refl eq_refl); lia.
Defined.

End ScorerExtras.

(** ** Builder: cache files, road labels, table shape, duplicate names *)

Section BuilderExtras.
Context {G : Type} `{!Shapely G}.
Variable write : string → write_outcome.
Import PyFacts.
Implicit Types (d : data G) (nb : feature G Neighborhood.attrs) (n : node)
  (st : build_state) (fs : files) (l : GeoDataFrame G Neighborhood.attrs).

Lemma build_subgraph_files d nb st fs r fs' :
  build_subgraph write d nb st fs = (r, fs') →
  (∀ p x, fs !! p = Some x → fs' !! p = Some x)
  ∧ (∀ p x, fs' !! p = Some x →
       fs !! p = Some x ∨ p = subgraph_path (Neighborhood.LIE_NAME (attrs nb))).
Proof.
  unfold build_subgraph.
  destruct (fs !! subgraph_path (Neighborhood.LIE_NAME (attrs nb)))
    as [[cached|]|] eqn:Hfs.
  { intros [= <- <-]. auto. }
  { intros [= <- <-]. auto. }
  destruct (subgraph_nodes d nb) as [[all_nodes road_nodes]|]; [|intros [= <- <-]; auto].
  destruct (write _); intros [= <- <-]; [|auto|]; split.
  - intros p x Hp. rewrite lookup_insert_ne; [done | congruence].
  - intros p x.
    destruct (decide (p = subgraph_path (Neighborhood.LIE_NAME (attrs nb)))) as [->|Hne];
      [auto|]. rewrite lookup_insert_ne by done. auto.
  - intros p x Hp. rewrite lookup_insert_ne; [done | congruence].
  - intros p x.
    destruct (decide (p = subgraph_path (Neighborhood.LIE_NAME (attrs nb)))) as [->|Hne];
      [auto|]. rewrite lookup_insert_ne by done. auto.
Qed.

Lemma build_loop_files d l st fs r fs' :
  build_loop write d l st fs = (r, fs') →
  (∀ p x, fs !! p = Some x → fs' !! p = Some x)
  ∧ (∀ p x, fs' !! p = Some x →
       fs !! p = Some x ∨ ∃ row, row ∈ l ∧ p = subgraph_path (name_of row)).
Proof.
  revert st fs. induction l as [|row l IH]; intros st fs; simpl.
  - intros [= <- <-]. auto.
  - destruct (build_subgraph write d row.2 st fs) as [[st1|e] fs1] eqn:Hstep.
    + intros Hloop. destruct (build_subgraph_files _ _ _ _ _ _ Hstep) as [Hkeep Hnew].
      destruct (IH _ _ Hloop) as [Hkeep' Hnew']. split; [by auto|].
      intros p x Hp. destruct (Hnew' p x Hp) as [Hp1 | (row' & Hin & ->)].
      * destruct (Hnew p x Hp1) as [? | ->]; [by left|].
        right. exists row. split; [by left | done].
      * right. exists row'. split; [by right | done].
    + intros [= <- <-]. destruct (build_subgraph_files _ _ _ _ _ _ Hstep) as [Hkeep Hnew].
      split; [done|]. intros p x Hp. destruct (Hnew p x Hp) as [? | ->]; [by left|].
      right. exists row. split; [by left | done].
Qed.

(** X6. Whether it returns or raises, [build_graph] never removes or
    replaces a cache file, and the only files it adds, complete or not,
    are cache files of neighborhoods of the layer. *)
Theorem build_graph_keeps_files d fs r fs' :
  build_graph write d fs = (r, fs') →
  (∀ p x, fs !! p = Some x → fs' !! p = Some x)
  ∧ (∀ p x, fs' !! p = Some x →
       fs !! p = Some x
       ∨ ∃ row, row ∈ neighborhoods d ∧ p = subgraph_path (name_of row)).
Proof. apply build_loop_files. Qed.

(** X7. After a run that returns, the dictionary of subgraphs has exactly
    the names of the neighborhood layer as keys, and each of them has a
    cache file holding the same subgraph. *)
Theorem build_graph_keys d fs st fs' :
  build_graph write d fs = (Ok st, fs') →
  (∀ k, is_Some (subgraphs st !! k) ↔ k ∈ name_of <$> neighborhoods d)
  ∧ (∀ k sd, subgraphs st !! k = Some sd →
       fs' !! subgraph_path k = Some (Pickle sd)).
Proof.
  unfold build_graph. intros Hrun.
  assert (cache_agrees {| subgraphs := ∅; road_network_nodes := [] |} fs) as Hinit
    by (by intros k sd Hk).
  destruct (build_loop_inv write d _ _ _ _ _ Hinit Hrun) as (Hinv & Hall & Hrest).
  split; [|exact Hinv]. intros k. split.
  - intros Hk. destruct (decide (k ∈ name_of <$> neighborhoods d)) as [|Hnot]; [done|].
    rewrite Hrest in Hk; [by destruct Hk|].
    intros row Hrow <-. apply Hnot. apply list_elem_of_fmap. by exists row.
  - intros (row & -> & Hrow)%list_elem_of_fmap. by apply Hall.
Qed.

(** The subgraph kept under a name is the one built for the first
    neighborhood of that name. *)
Lemma first_subgraph_kept d pre row post fs st fs' :
  neighborhoods d = pre ++ row :: post →
  name_of row ∉ name_of <$> pre →
  fs !! subgraph_path (name_of row) = None →
  build_graph write d fs = (Ok st, fs') →
  ∃ all_nodes road_nodes,
    subgraph_nodes d row.2 = Ok (all_nodes, road_nodes)
    ∧ subgraphs st !! name_of row
      = Some {| nodes := {| rows := all_nodes; walkability_rule := None |};
                edges := None |}.
Proof.
  intros Hnbs Hfresh Hmiss. unfold build_graph. rewrite Hnbs, build_loop_app.
  destruct (build_loop write d pre _ fs) as [[st1|e] fs1] eqn:Hpre; [|done].
  cbn [build_loop].
  destruct (build_subgraph write d row.2 st1 fs1) as [[st2|e] fs2] eqn:Hstep; [|done].
  intros Hpost.
  assert (cache_agrees {| subgraphs := ∅; road_network_nodes := [] |} fs) as Hinit
    by (by intros k sd Hk).
  destruct (build_loop_inv write d _ _ _ _ _ Hinit Hpre) as (Hinv1 & _ & _).
  destruct (build_subgraph_inv write _ _ _ _ _ _ Hinv1 Hstep) as (Hinv2 & _ & _ & _).
  assert (fs1 !! subgraph_path (name_of row) = None) as Hmiss1.
  { destruct (fs1 !! subgraph_path (name_of row)) as [x|] eqn:Hx; [|done].
    destruct (build_loop_files _ _ _ _ _ _ Hpre) as [_ Hnew].
    destruct (Hnew _ _ Hx) as [? | (row' & Hin & Heq)]; [congruence|].
    apply subgraph_path_inj in Heq. destruct Hfresh.
    apply list_elem_of_fmap. by exists row'. }
  unfold build_subgraph in Hstep. unfold name_of in Hmiss1. rewrite Hmiss1 in Hstep.
  destruct (subgraph_nodes d row.2) as [[all_nodes road_nodes]|]; [|done].
  destruct (write _); [|done|done]. injection Hstep as <- <-.
  exists all_nodes, road_nodes. split; [done|].
  destruct (build_loop_inv write d _ _ _ _ _ Hinv2 Hpost) as (Hinv & Hall & Hrest).
  destruct (build_loop_files _ _ _ _ _ _ Hpost) as [Hkeep _].
  destruct (decide (name_of row ∈ name_of <$> post)) as [Hdup|Hnodup].
  - apply list_elem_of_fmap in Hdup as (row' & Heq & Hin).
    destruct (Hall row' Hin) as [sd' Hsd']. rewrite Heq, Hsd'.
    apply Hinv in Hsd'. rewrite <- Heq in Hsd'.
    pose proof (Hkeep _ _ (lookup_insert_eq _ _ _)) as Hfile.
    unfold name_of in *. congruence.
  - rewrite Hrest; [apply lookup_insert_eq|].
    intros row' Hin Heq. apply Hnodup. apply list_elem_of_fmap. by exists row'.
Qed.

(** X8. When two neighborhoods share a name, the subgraph kept under
    that name is the one built for the first of them: the later one
    finds the cache file just written and is not built. *)
Theorem first_neighborhood_wins d pre row post fs st fs' :
  neighborhoods d = pre ++ row :: post →
  name_of row ∉ name_of <$> pre →
  fs !! subgraph_path (name_of row) = None →
  build_graph write d fs = (Ok st, fs') →
  ∃ all_nodes road_nodes,
    subgraph_nodes d row.2 = Ok (all_nodes, road_nodes)
    ∧ subgraphs st !! name_of row
      = Some {| nodes := {| rows := all_nodes; walkability_rule := None |};
                edges := None |}.
Proof. apply first_subgraph_kept. Qed.

Lemma build_loop_road_nodes d l st fs st' fs' :
  Forall (λ n, type n = "road") (road_network_nodes st) →
  build_loop write d l st fs = (Ok st', fs') →
  Forall (λ n, type n = "road") (road_network_nodes st').
Proof.
  revert st fs. induction l as [|row l IH]; intros st fs Hst; simpl.
  - by intros [= <- <-].
  - destruct (build_subgraph write d row.2 st fs) as [[st1|e] fs1] eqn:Hstep; [|done].
    apply IH. unfold build_subgraph in Hstep.
    destruct (fs !! _) as [[cached|]|]; [by injection Hstep as <- <- | done |].
    destruct (subgraph_nodes d row.2) as [[all_nodes road_nodes]|] eqn:Hnodes; [|done].
    destruct (write _); [|done|done]. injection Hstep as <- <-. simpl.
    apply Forall_app. split; [done|].
    unfold subgraph_nodes in Hnodes.
    destruct (mapM road_endpoints (relevant_roads d row.2)) as [pts|]; [|done].
    cbn [fmap result_fmap mbind result_bind] in Hnodes.
    destruct (mapM (road_data (roads d)) (mjoin pts)) as [rn|] eqn:Hrn; [|done].
    cbn [mbind result_bind] in Hnodes. injection Hnodes as _ <-.
    apply mapM_result_inv in Hrn.
    induction Hrn as [|pt n ? ? Hpt _ IHrn]; constructor; [|done].
    by eapply road_data_type.
Qed.

(** X9. The second value [build_graph] returns holds road rows only. *)
Theorem road_network_nodes_are_roads d fs st fs' :
  build_graph write d fs = (Ok st, fs') →
  ∀ n, n ∈ road_network_nodes st → type n = "road".
Proof.
  intros Hrun. apply Forall_forall. unfold build_graph in Hrun.
  eapply build_loop_road_nodes; [|exact Hrun]. constructor.
Qed.

End BuilderExtras.

Lemma city_returns (d : data Line.seg) :
  has_range_index (roads d) →
  ∃ st fs', build_graph City.always_writable d ∅ = (Ok st, fs').
Proof.
  intros Hrange. apply build_graph_returns; [done | done |].
  intros row _. by rewrite lookup_empty.
Qed.

Lemma build_graph_keeps_files_witness :
  ∃ r fs',
    build_graph City.always_writable City.city City.old_cache = (r, fs')
    ∧ fs' !! subgraph_path "A" = Some (Pickle City.stale).
Proof.
  destruct (build_graph City.always_writable City.city City.old_cache) as [r fs'] eqn:Hrun.
  exists r, fs'. split; [reflexivity|].
  apply (build_graph_keeps_files City.always_writable City.city City.old_cache r fs' Hrun).
  apply lookup_singleton_eq.
Defined.

Lemma build_graph_keys_witness :
  ∃ st fs',
    build_graph City.always_writable City.twins ∅ = (Ok st, fs')
    ∧ is_Some (subgraphs st !! "A")
    ∧ ¬ is_Some (subgraphs st !! "C").
Proof.
  destruct (city_returns City.twins eq_refl) as (st & fs' & Hrun).
  exists st, fs'. split; [exact Hrun|].
  destruct (build_graph_keys City.always_writable City.twins ∅ st fs' Hrun) as [Hkeys _].
  split.
  - apply Hkeys. by left.
  - intros HC. apply Hkeys in HC. cbn in HC.
    repeat (apply elem_of_cons in HC as [HC | HC]; [discriminate|]).
    by apply elem_of_nil in HC.
Defined.

Lemma first_neighborhood_wins_witness :
  ∃ st fs' all_nodes road_nodes,
    build_graph City.always_writable City.twins ∅ = (Ok st, fs')
    ∧ subgraph_nodes City.twins City.A = Ok (all_nodes, road_nodes)
    ∧ subgraphs st !! "A"
      = Some {| nodes := {| rows := all_nodes; walkability_rule := None |};
                edges := None |}.
Proof.
  destruct (city_returns City.twins eq_refl) as (st & fs' & Hrun).
  destruct (first_neighborhood_wins City.always_writable City.twins [] (0, City.A)
              [(1, City.B); (2, Feature (attrs City.A') (Line.polygon 2000 2100))]
              ∅ st fs' eq_refl (not_elem_of_nil _) (lookup_empty _) Hrun)
    as (all_nodes & road_nodes & Hnodes & Hsd).
  exists st, fs', all_nodes, road_nodes. auto.
Defined.

Lemma road_network_nodes_are_roads_witness :
  ∃ st fs',
    build_graph City.always_writable City.city ∅ = (Ok st, fs')
    ∧ ∀ n, n ∈ road_network_nodes st → type n = "road".
Proof.
  destruct (city_returns City.city eq_refl) as (st & fs' & Hrun).
  exists st, fs'. split; [exact Hrun|].
  exact (road_network_nodes_are_roads City.always_writable City.city ∅ st fs' Hrun).
Defined.

(** X10. A second run of [build_graph] on the cache a first run left
    returns the same subgraphs and writes nothing, but its list of road
    rows is empty: road rows are only collected while building. *)
Theorem build_graph_second_run {G : Type} `{!Shapely G} (write : string → write_outcome)
    (d : data G) (fs : files) (st : build_state) (fs1 : files) :
  build_graph write d fs = (Ok st, fs1) →
  ∃ st2,
    build_graph write d fs1 = (Ok st2, fs1)
    ∧ subgraphs st2 = subgraphs st
    ∧ road_network_nodes st2 = [].
Proof.
  intros Hrun. exists {| subgraphs := subgraphs st; road_network_nodes := [] |}.
  split; [by apply (build_graph_rerun write d fs)|]. done.
Qed.

Lemma build_graph_second_run_witness :
  ∃ st fs1 st2,
    build_graph City.always_writable City.city ∅ = (Ok st, fs1)
    ∧ build_graph City.always_writable City.city fs1 = (Ok st2, fs1)
    ∧ subgraphs st2 = subgraphs st
    ∧ road_network_nodes st2 = [].
Proof.
  destruct (city_returns City.city eq_refl) as (st & fs1 & Hrun).
  destruct (build_graph_second_run City.always_writable City.city ∅ st fs1 Hrun)
    as (st2 & Hrun2 & Hsame & Hnone).
  exists st, fs1, st2. auto.
Defined.

(** X11. On a road layer with the index [validate_geometries] gives and
    a cache directory where every file can be written, [build_graph]
    raises nothing exactly when no neighborhood of the layer has an
    incomplete cache file.  Whatever complete files the cache holds are
    read without an exception; an incomplete file, as a failed
    [pickle.dump] leaves it, makes the run raise. *)
Theorem build_graph_no_exception {G : Type} `{!Shapely G} (write : string → write_outcome)
    (d : data G) (fs : files) :
  has_range_index (roads d) →
  (∀ p, write p = Written) →
  (∃ st fs', build_graph write d fs = (Ok st, fs'))
  ↔ (∀ row, row ∈ neighborhoods d → fs !! subgraph_path (name_of row) ≠ Some Incomplete).
Proof.
  intros Hrange Hw. split; [|by apply build_graph_returns].
  intros (st & fs' & Hrun) row Hrow Hbad.
  assert (cache_agrees {| subgraphs := ∅; road_network_nodes := [] |} fs) as Hinit
    by (by intros k sd Hk).
  destruct (build_loop_inv write d _ _ _ _ _ Hinit Hrun) as (Hinv & Hall & _).
  destruct (build_loop_files write d _ _ _ _ _ Hrun) as [Hkeep _].
  destruct (Hall row Hrow) as [sd Hsd]. apply Hinv in Hsd.
  apply Hkeep in Hbad. congruence.
Qed.

Lemma build_graph_no_exception_witness :
  (∃ st fs', build_graph City.always_writable City.city City.old_cache = (Ok st, fs'))
  ∧ ¬ (∃ st fs', build_graph City.always_writable City.city City.broken_cache = (Ok st, fs')).
Proof.
  split.
  - apply (proj2 (build_graph_no_exception City.always_writable City.city City.old_cache
                    eq_refl (λ _, eq_refl))).
    intros row Hrow. unfold City.old_cache.
    destruct (decide (subgraph_path (name_of row) = subgraph_path "A")) as [->|Hne].
    + by rewrite lookup_singleton_eq.
    + by rewrite lookup_singleton_ne.
  - intros Hruns.
    apply (proj1 (build_graph_no_exception City.always_writable City.city
                    City.broken_cache eq_refl (λ _, eq_refl)) Hruns (1, City.B));
      [right; by left | apply lookup_singleton_eq].
Defined.

(** X27. A cache file that holds no complete pickle stops the run at
    its neighborhood: [build_graph] raises the exception of
    [pickle.load] there, after the earlier neighborhoods were loaded or
    built and their cache files written, and nothing is returned.  The
    file itself stays as it is, so every later run stops there too. *)
Theorem incomplete_cache_file_raises {G : Type} `{!Shapely G}
    (write : string → write_outcome) (d : data G) pre row post (fs : files) st fs1 :
  neighborhoods d = pre ++ row :: post →
  build_loop write d pre {| subgraphs := ∅; road_network_nodes := [] |} fs = (Ok st, fs1) →
  fs !! subgraph_path (name_of row) = Some Incomplete →
  build_graph write d fs = (Raise (UnpicklingError (subgraph_path (name_of row))), fs1)
  ∧ fs1 !! subgraph_path (name_of row) = Some Incomplete
  ∧ ∀ write', ∃ fs2,
      build_graph write' d fs1
      = (Raise (UnpicklingError (subgraph_path (name_of row))), fs2).
Proof.
  intros Hnbs Hpre Hbad.
  destruct (build_loop_files write d _ _ _ _ _ Hpre) as [Hkeep _].
  pose proof (Hkeep _ _ Hbad) as Hbad1.
  split; [|split; [exact Hbad1|]].
  - unfold build_graph. rewrite Hnbs, build_loop_app, Hpre. cbn [build_loop].
    unfold build_subgraph. unfold name_of in Hbad1. by rewrite Hbad1.
  - intros write'.
    assert (cache_agrees {| subgraphs := ∅; road_network_nodes := [] |} fs) as Hinit
      by (by intros k sd Hk).
    destruct (build_loop_inv write d _ _ _ _ _ Hinit Hpre) as (Hinv & Hall & _).
    destruct (build_loop_cached write' d pre
                {| subgraphs := ∅; road_network_nodes := [] |} fs1 (subgraphs st))
      as (st2 & Hpre2 & _).
    { intros r Hr. destruct (Hall r Hr) as [sd Hsd]. exists sd. split; [done|].
      by apply Hinv. }
    { by intros k sd Hk. }
    exists fs1. unfold build_graph. rewrite Hnbs, build_loop_app, Hpre2.
    cbn [build_loop]. unfold build_subgraph. unfold name_of in Hbad1. by rewrite Hbad1.
Qed.

Lemma incomplete_cache_file_raises_witness :
  ∃ fs1,
    build_graph City.always_writable City.city City.broken_cache
    = (Raise (UnpicklingError (subgraph_path "B")), fs1)
    ∧ fs1 !! subgraph_path "B" = Some Incomplete.
Proof.
  destruct (build_loop_returns City.always_writable City.city [(0, City.A)]
              City.no_subgraphs City.broken_cache eq_refl (λ _, eq_refl))
    as (st & fs1 & Hpre).
  { intros row Hrow%list_elem_of_singleton. subst row. unfold City.broken_cache.
    rewrite lookup_singleton_ne; [done|]. intros Heq.
    by apply subgraph_path_inj in Heq. }
  destruct (incomplete_cache_file_raises City.always_writable City.city [(0, City.A)]
              (1, City.B) [] City.broken_cache st fs1 eq_refl Hpre
              (lookup_singleton_eq _ _)) as (Hrun & Hfile & _).
  exists fs1. by split.
Defined.

(** ** Builder: road rows without the validated index *)

Section RoadLabels.
Context {G : Type} `{!Shapely G}.
Import PyFacts.
Implicit Types (d : data G) (nb : feature G Neighborhood.attrs) (n : node)
  (roads_gdf : GeoDataFrame G Road.attrs).

Lemma py_index_raises {A} (l : list A) i e : py_index l i = Raise e → e = IndexError.
Proof.
  unfold py_index. destruct (_ && _); [|by intros [= <-]].
  destruct (l !! _); [done | by intros [= <-]].
Qed.

Lemma py_index_out {A} (l : list A) i :
  i < - Z.of_nat (length l) ∨ Z.of_nat (length l) <= i →
  py_index l i = Raise IndexError.
Proof.
  intros Hout. unfold py_index.
  destruct (Z.ltb_spec i 0).
  - destruct (Z.leb_spec 0 (Z.of_nat (length l) + i)); [lia | done].
  - destruct (Z.leb_spec 0 i); [|done].
    destruct (Z.ltb_spec i (Z.of_nat (length l))); [lia | done].
Qed.

Lemma py_index_fmap {A B} (f : A → B) (l : list A) i x :
  py_index l i = Ok x → py_index (f <$> l) i = Ok (f x).
Proof.
  unfold py_index. rewrite length_fmap.
  destruct (_ && _); [|done]. rewrite list_lookup_fmap.
  destruct (l !! _); [|done]. by intros [= <-].
Qed.

Lemma road_data_unfold roads_gdf node_id p i :
  split "_" node_id = ["road"; "start"; py_str i]
  ∨ split "_" node_id = ["road"; "end"; py_str i] →
  road_data roads_gdf (node_id, p)
  = (road_class ← py_index (column Road.class roads_gdf) i;
     length_m ← py_index (column Road.length_m roads_gdf) i;
     Ok (road_node node_id road_class length_m)).
Proof.
  intros Hsplit. unfold road_data.
  assert (py_index (split "_" node_id) 2 = Ok (py_str i)) as ->
    by (by destruct Hsplit as [-> | ->]).
  cbn [mbind result_bind]. by rewrite py_int_py_str.
Qed.

Lemma endpoint_ids_split row node_id :
  node_id ∈ endpoint_ids row →
  split "_" node_id = ["road"; "start"; py_str row.1]
  ∨ split "_" node_id = ["road"; "end"; py_str row.1].
Proof.
  unfold endpoint_ids. destruct (String.eqb _ _); [|by intros ?%elem_of_nil].
  intros [-> | ->%list_elem_of_singleton]%elem_of_cons;
    auto using split_road_start, split_road_end.
Qed.

(** The first road loop never fails on selected roads, and collects the
    identities of the selected line strings in order. *)
Lemma road_points_ids (l : GeoDataFrame G Road.attrs) (buf : G) :
  (∀ row, row ∈ l → intersects (geometry row.2) buf = true) →
  ∃ pts, mapM road_endpoints l = Ok pts ∧ (mjoin pts).*1 = l ≫= endpoint_ids.
Proof.
  induction l as [|row l IH]; intros Hl; [by exists []|].
  destruct IH as (pts & Hpts & Hids); [intros row' ?; apply Hl; by right|].
  destruct (road_endpoints_ok row buf) as (ps & Hps & Hps_ids); [apply Hl; by left|].
  exists (ps :: pts). rewrite mapM_result_cons, Hps, Hpts. split; [done|].
  change (mjoin (ps :: pts)) with (ps ++ mjoin pts).
  change ((row :: l) ≫= endpoint_ids) with (endpoint_ids row ++ (l ≫= endpoint_ids)).
  by rewrite fmap_app, Hids, Hps_ids.
Qed.

Lemma mapM_raise_only {A B} (f : A → result B) (e : exn) (l : list A) :
  (∀ x, x ∈ l → f x = Raise e ∨ ∃ y, f x = Ok y) →
  (∃ x, x ∈ l ∧ f x = Raise e) →
  mapM f l = Raise e.
Proof.
  induction l as [|a l IH]; intros Hall (x & Hx & Hfx).
  - by apply elem_of_nil in Hx.
  - rewrite mapM_result_cons.
    destruct (Hall a) as [-> | [y Hy]]; [by left | done |].
    rewrite Hy. cbn [mbind result_bind].
    apply elem_of_cons in Hx as [-> | Hx]; [congruence|].
    rewrite IH; [done | by intros ? ?; apply Hall; right | by exists x].
Qed.

(** X12. The class and length of a road row are read at the position
    given by the number in its identity.  If a selected line string
    carries a label that is no position of the road layer, building the
    table raises [IndexError]. *)
Theorem road_label_out_of_range d nb i r :
  (i, r) ∈ roads d →
  intersects (geometry r) (neigh_buffer nb) = true →
  geom_type (geometry r) = "LineString" →
  i < - Z.of_nat (length (roads d)) ∨ Z.of_nat (length (roads d)) <= i →
  subgraph_nodes d nb = Raise IndexError.
Proof.
  intros Hin Hint Hls Hout.
  destruct (road_points_ids (relevant_roads d nb) (neigh_buffer nb)) as (pts & Hpts & Hids).
  { intros row Hrow. by apply boolean_index_elem in Hrow as [_ ?]. }
  unfold subgraph_nodes. rewrite Hpts. cbn [fmap result_fmap mbind result_bind].
  rewrite (mapM_raise_only _ IndexError); [done| |].
  - intros [node_id p] Hpt.
    assert (node_id ∈ (mjoin pts).*1) as Hid
      by (apply list_elem_of_fmap; by exists (node_id, p)).
    rewrite Hids in Hid. apply list_elem_of_bind in Hid as (row & Hid & _).
    rewrite (road_data_unfold _ _ _ row.1 (endpoint_ids_split _ _ Hid)).
    destruct (py_index (column Road.class (roads d)) row.1) as [c|e] eqn:Hc;
      [|apply py_index_raises in Hc as ->; by left].
    destruct (py_index (column Road.length_m (roads d)) row.1) as [len|e] eqn:Hlen;
      [|apply py_index_raises in Hlen as ->; by left].
    right. by eexists.
  - assert ("road_start_" +:+ py_str i ∈ (mjoin pts).*1) as Hid.
    { rewrite Hids. apply list_elem_of_bind. exists (i, r). split.
      - unfold endpoint_ids. simpl. rewrite Hls. by left.
      - by apply boolean_index_elem. }
    apply list_elem_of_fmap in Hid as ([node_id p] & Heq & Hpt). simpl in Heq. subst node_id.
    exists ("road_start_" +:+ py_str i, p). split; [done|].
    rewrite (road_data_unfold _ _ _ i (or_introl (split_road_start i))).
    rewrite (py_index_out (column Road.class (roads d))); [reflexivity|].
    unfold column. by rewrite length_fmap.
Qed.

(** X13. A road row carries the class and length of the road that sits
    at the position its label names, whichever road that is: if the road
    labelled [i] is a selected line string and position [i] of the layer
    holds road [r'], the rows [road_start_i] and [road_end_i] carry the
    attributes of [r']. *)
Theorem road_attributes_by_position d nb i r k r' all_nodes road_nodes :
  subgraph_nodes d nb = Ok (all_nodes, road_nodes) →
  (i, r) ∈ roads d →
  intersects (geometry r) (neigh_buffer nb) = true →
  geom_type (geometry r) = "LineString" →
  py_index (roads d) i = Ok (k, r') →
  road_node ("road_start_" +:+ py_str i)
    (Road.class (attrs r')) (Road.length_m (attrs r')) ∈ all_nodes
  ∧ road_node ("road_end_" +:+ py_str i)
      (Road.class (attrs r')) (Road.length_m (attrs r')) ∈ all_nodes.
Proof.
  intros Hrun Hin Hint Hls Hpos.
  destruct (road_points_ids (relevant_roads d nb) (neigh_buffer nb)) as (pts & Hpts & Hids).
  { intros row Hrow. by apply boolean_index_elem in Hrow as [_ ?]. }
  unfold subgraph_nodes in Hrun. rewrite Hpts in Hrun.
  cbn [fmap result_fmap mbind result_bind] in Hrun.
  destruct (mapM (road_data (roads d)) (mjoin pts)) as [rn|] eqn:Hrn; [|done].
  cbn [mbind result_bind] in Hrun. injection Hrun as <- <-.
  apply mapM_result_inv in Hrn.
  assert (∀ node_id,
            split "_" node_id = ["road"; "start"; py_str i]
            ∨ split "_" node_id = ["road"; "end"; py_str i] →
            node_id ∈ endpoint_ids (i, r) →
            road_node node_id (Road.class (attrs r')) (Road.length_m (attrs r')) ∈ rn)
    as Hrow.
  { intros node_id Hsplit Hid.
    assert (node_id ∈ (mjoin pts).*1) as Hid'.
    { rewrite Hids. apply list_elem_of_bind. exists (i, r).
      split; [done | by apply boolean_index_elem]. }
    apply list_elem_of_fmap in Hid' as ([node_id' p] & Heq & Hpt). simpl in Heq. subst node_id'.
    apply list_elem_of_lookup in Hpt as [j Hj].
    destruct (Forall2_lookup_l _ _ _ _ _ Hrn Hj) as (n & Hn & Hdata).
    rewrite (road_data_unfold _ _ _ i Hsplit) in Hdata. unfold column in Hdata.
    rewrite (py_index_fmap (λ row, Road.class (attrs row.2)) _ _ _ Hpos) in Hdata.
    rewrite (py_index_fmap (λ row, Road.length_m (attrs row.2)) _ _ _ Hpos) in Hdata.
    injection Hdata as <-. by eapply list_elem_of_lookup_2. }
  assert (endpoint_ids (i, r)
          = ["road_start_" +:+ py_str i; "road_end_" +:+ py_str i]) as Hends
    by (unfold endpoint_ids; simpl; by rewrite Hls).
  split; (apply elem_of_cons; right; apply elem_of_app; right; apply elem_of_app; left;
          apply Hrow; [auto using split_road_start, split_road_end | rewrite Hends]).
  - by left.
  - right. by left.
Qed.

Lemma count_type_app (t : string) (l1 l2 : list node) :
  count_type t (l1 ++ l2) = (count_type t l1 + count_type t l2)%nat.
Proof. unfold count_type. by rewrite List.filter_app, length_app. Qed.

Lemma count_type_const (t s : string) (l : list node) :
  Forall (λ n, type n = s) l →
  count_type t l = if String.eqb s t then length l else 0%nat.
Proof.
  unfold count_type. induction 1 as [|n l Hn _ IH]; simpl.
  - by destruct (String.eqb s t).
  - rewrite Hn. destruct (String.eqb s t); simpl; [by rewrite IH | done].
Qed.

(** X14. A table that gets built has one neighborhood row, one row per
    selected building, tree and transit point, and two rows per selected
    line string, and no other row; it comes without edges and without a
    score column. *)
Theorem fresh_subgraph_shape (write : string → write_outcome) d nb st fs st' fs' :
  fs !! subgraph_path (Neighborhood.LIE_NAME (attrs nb)) = None →
  build_subgraph write d nb st fs = (Ok st', fs') →
  ∃ sd,
    subgraphs st' !! Neighborhood.LIE_NAME (attrs nb) = Some sd
    ∧ edges sd = None
    ∧ walkability_rule (nodes sd) = None
    ∧ count_type "neighborhood" (rows (nodes sd)) = 1%nat
    ∧ count_type "building" (rows (nodes sd)) = length (relevant_buildings d nb)
    ∧ count_type "road" (rows (nodes sd))
      = (2 * length (List.filter
                       (λ row, String.eqb (geom_type (geometry row.2)) "LineString")
                       (relevant_roads d nb)))%nat
    ∧ count_type "tree" (rows (nodes sd)) = length (relevant_trees d nb)
    ∧ count_type "transit" (rows (nodes sd)) = length (relevant_transit d nb)
    ∧ length (rows (nodes sd))
      = (1 + length (relevant_buildings d nb)
         + 2 * length (List.filter
                         (λ row, String.eqb (geom_type (geometry row.2)) "LineString")
                         (relevant_roads d nb))
         + length (relevant_trees d nb)
         + length (relevant_transit d nb))%nat.
Proof.
  intros Hmiss. unfold build_subgraph. rewrite Hmiss.
  destruct (subgraph_nodes d nb) as [[all_nodes road_nodes]|] eqn:Hnodes; [|done].
  destruct (write _); [|done|done]. intros [= <- <-].
  eexists. split; [apply lookup_insert_eq|]. cbn [edges nodes walkability_rule rows].
  split; [done|]. split; [done|].
  destruct (road_points_ids (relevant_roads d nb) (neigh_buffer nb)) as (pts & Hpts & Hids).
  { intros row Hrow. by apply boolean_index_elem in Hrow as [_ ?]. }
  unfold subgraph_nodes in Hnodes. rewrite Hpts in Hnodes.
  cbn [fmap result_fmap mbind result_bind] in Hnodes.
  destruct (mapM (road_data (roads d)) (mjoin pts)) as [rn|] eqn:Hrn; [|done].
  cbn [mbind result_bind] in Hnodes. injection Hnodes as <- <-.
  apply mapM_result_inv in Hrn.
  assert (Forall (λ n, type n = "road") rn) as Hroad.
  { clear -Hrn. induction Hrn as [|pt n ? ? Hpt _ IH]; constructor; [|done].
    by eapply road_data_type. }
  apply Forall2_length in Hrn.
  assert (length (mjoin pts)
          = (2 * length (List.filter
                           (λ row, String.eqb (geom_type (geometry row.2)) "LineString")
                           (relevant_roads d nb)))%nat) as Hlen.
  { rewrite <- (length_fmap fst), Hids. clear.
    induction (relevant_roads d nb) as [|row l IH]; [done|].
    change ((row :: l) ≫= endpoint_ids) with (endpoint_ids row ++ (l ≫= endpoint_ids)).
    rewrite length_app, IH. unfold endpoint_ids. simpl.
    destruct (String.eqb _ _); simpl; lia. }
  assert (Forall (λ n, type n = "building") (building_data <$> relevant_buildings d nb))
    as Hb by (rewrite Forall_fmap; apply Forall_forall; by intros [? ?] _).
  assert (Forall (λ n, type n = "tree") (tree_data <$> relevant_trees d nb))
    as Ht by (rewrite Forall_fmap; apply Forall_forall; by intros [? ?] _).
  assert (Forall (λ n, type n = "transit") (transit_data <$> relevant_transit d nb))
    as Hs by (rewrite Forall_fmap; apply Forall_forall; by intros [? ?] _).
  assert (∀ t, count_type t
                 (node_data nb
                  :: (building_data <$> relevant_buildings d nb)
                  ++ rn
                  ++ (tree_data <$> relevant_trees d nb)
                  ++ (transit_data <$> relevant_transit d nb))
               = ((if String.eqb "neighborhood" t then 1 else 0)
                  + ((if String.eqb "building" t
                      then length (relevant_buildings d nb) else 0)
                     + ((if String.eqb "road" t then length rn else 0)
                        + ((if String.eqb "tree" t
                            then length (relevant_trees d nb) else 0)
                           + (if String.eqb "transit" t
                              then length (relevant_transit d nb) else 0)))))%nat)
    as Hcount.
  { intros t.
    change (count_type t (node_data nb :: ?l))
      with (count_type t ([node_data nb] ++ l)).
    rewrite !count_type_app.
    rewrite (count_type_const t "neighborhood" [node_data nb]) by (by constructor).
    rewrite (count_type_const t _ _ Hb), (count_type_const t _ _ Hroad),
      (count_type_const t _ _ Ht), (count_type_const t _ _ Hs).
    by rewrite !length_fmap. }
  rewrite !Hcount. cbn [String.eqb Ascii.eqb Bool.eqb].
  repeat split; try lia.
  cbn [length]. rewrite !length_app, !length_fmap. lia.
Qed.

End RoadLabels.

Lemma road_label_out_of_range_witness :
  subgraph_nodes City.unvalidated City.A = Raise IndexError.
Proof.
  apply (road_label_out_of_range City.unvalidated City.A 5
           (City.street "residential" (Line.line_string 250 400)));
    [by left | reflexivity | reflexivity | right; simpl; lia].
Defined.

Lemma road_attributes_by_position_witness :
  ∃ all_nodes road_nodes,
    subgraph_nodes City.relabelled City.A = Ok (all_nodes, road_nodes)
    ∧ road_node "road_start_1" (Some "footway") (Some (inject_Z 40)) ∈ all_nodes.
Proof.
  assert (∃ all_nodes road_nodes,
            subgraph_nodes City.relabelled City.A = Ok (all_nodes, road_nodes))
    as (all_nodes & road_nodes & Hrun) by (vm_compute; eauto).
  exists all_nodes, road_nodes. split; [exact Hrun|].
  apply (road_attributes_by_position City.relabelled City.A 1
           (City.street "residential" (Line.line_string 250 400)) 0
           (City.street "footway" (Line.multi_line_string 280 320))
           all_nodes road_nodes Hrun); [by left | reflexivity | reflexivity | reflexivity].
Defined.

Lemma fresh_subgraph_shape_witness :
  ∃ st' fs' sd,
    build_subgraph City.always_writable City.city City.A City.no_subgraphs ∅ = (Ok st', fs')
    ∧ subgraphs st' !! "A" = Some sd
    ∧ edges sd = None
    ∧ count_type "building" (rows (nodes sd)) = 1%nat
    ∧ count_type "road" (rows (nodes sd)) = 2%nat
    ∧ length (rows (nodes sd)) = 6%nat.
Proof.
  destruct (build_subgraph_returns City.always_writable City.city City.A
              City.no_subgraphs ∅ eq_refl eq_refl) as (st' & fs' & Hrun);
    [by rewrite lookup_empty|].
  destruct (fresh_subgraph_shape City.always_writable City.city City.A
              City.no_subgraphs ∅ st' fs' (lookup_empty _) Hrun)
    as (sd & Hsd & Hedges & _ & _ & Hb & Hr & _ & _ & Hlen).
  exists st', fs', sd.
  split; [exact Hrun|]. split; [exact Hsd|]. split; [exact Hedges|].
  split; [exact Hb|]. split; [exact Hr | exact Hlen].
Defined.

(** ** Builder: identities within one table *)

Section VertexIdentities.
Context {G : Type} `{!Shapely G}.
Import PyFacts.
Implicit Types (d : data G) (nb : feature G Neighborhood.attrs) (n : node).

Lemma range_index_NoDup {A} (gdf : GeoDataFrame G A) :
  has_range_index gdf → NoDup (index gdf).
Proof.
  unfold has_range_index, RangeIndex. intros ->.
  apply (NoDup_fmap_2 _), NoDup_seq.
Qed.

Lemma boolean_index_labels {A} (p : feature G A → bool) (gdf : GeoDataFrame G A) i :
  i ∈ index (boolean_index p gdf) → i ∈ index gdf.
Proof.
  unfold index. intros ([i' row] & -> & Hrow%boolean_index_elem)%list_elem_of_fmap.
  apply list_elem_of_fmap. exists (i', row). tauto.
Qed.

Lemma boolean_index_NoDup {A} (p : feature G A → bool) (gdf : GeoDataFrame G A) :
  NoDup (index gdf) → NoDup (index (boolean_index p gdf)).
Proof.
  unfold index. induction gdf as [|[i row] gdf IH]; [done|].
  rewrite fmap_cons, NoDup_cons. intros [Hi Hrest].
  unfold boolean_index. cbn [List.filter snd]. destruct (p row); [|by apply IH].
  rewrite fmap_cons. apply NoDup_cons. split; [|by apply IH].
  intros Hin. apply Hi. by eapply (boolean_index_labels p gdf).
Qed.

Lemma labelled_NoDup {A} (prefix : string) (l : GeoDataFrame G A) :
  NoDup (index l) → NoDup ((λ row, prefix +:+ py_str row.1) <$> l).
Proof.
  unfold index. intros Hl.
  assert ((λ row : Z * feature G A, prefix +:+ py_str row.1) <$> l
          = (λ i, prefix +:+ py_str i) <$> l.*1) as ->
    by (by rewrite <- list_fmap_compose).
  assert (Inj eq eq (λ i : Z, prefix +:+ py_str i)) as Hinj
    by (intros i j Heq; by apply String.app_inj, py_str_inj in Heq).
  by apply (NoDup_fmap_2 _).
Qed.

Lemma endpoint_ids_NoDup (l : GeoDataFrame G Road.attrs) :
  NoDup (index l) → NoDup (l ≫= endpoint_ids).
Proof.
  unfold index. induction l as [|[i r] l IH]; [intros _; constructor|].
  rewrite fmap_cons, NoDup_cons. intros [Hi Hrest].
  change (((i, r) :: l) ≫= endpoint_ids)
    with (endpoint_ids (i, r) ++ (l ≫= endpoint_ids)).
  apply NoDup_app. split; [|split; [|by apply IH]].
  - unfold endpoint_ids. simpl. destruct (String.eqb _ _); [|constructor].
    apply NoDup_cons. split; [|apply NoDup_singleton].
    intros Heq%list_elem_of_singleton. cbv [String.append] in Heq. congruence.
  - intros x Hx (row & Hrow & Hin)%list_elem_of_bind. apply Hi.
    assert (row.1 = i) as <-; [|apply list_elem_of_fmap; by exists row].
    unfold endpoint_ids in Hx, Hrow. simpl in Hx.
    destruct (String.eqb (geom_type (geometry r)) "LineString"); [|by apply elem_of_nil in Hx].
    destruct (String.eqb (geom_type (geometry row.2)) "LineString");
      [|by apply elem_of_nil in Hrow].
    apply elem_of_cons in Hx as [-> | ->%list_elem_of_singleton];
      apply elem_of_cons in Hrow as [Heq | Heq%list_elem_of_singleton];
      try (exfalso; cbv [String.append] in Heq; congruence);
      by apply String.app_inj, py_str_inj in Heq.
Qed.

Lemma road_rows_vertices (l : GeoDataFrame G Road.attrs) :
  vertex <$> (l ≫= road_rows) = l ≫= endpoint_ids.
Proof.
  induction l as [|[i r] l IH]; [done|].
  change (((i, r) :: l) ≫= road_rows) with (road_rows (i, r) ++ (l ≫= road_rows)).
  change (((i, r) :: l) ≫= endpoint_ids)
    with (endpoint_ids (i, r) ++ (l ≫= endpoint_ids)).
  rewrite fmap_app, IH. f_equal. unfold road_rows, endpoint_ids. simpl.
  by destruct (String.eqb _ _).
Qed.

(** X15. On validated layers the identities of the rows of a new table
    are pairwise different. *)
Theorem vertex_unique d nb :
  wf_data d →
  ∃ all_nodes road_nodes,
    subgraph_nodes d nb = Ok (all_nodes, road_nodes)
    ∧ NoDup (vertex <$> all_nodes).
Proof.
  intros (Hb & Hr & Ht & Hs).
  exists (expected_nodes d nb), (relevant_roads d nb ≫= road_rows).
  split; [by apply subgraph_nodes_ok|].
  unfold expected_nodes. rewrite fmap_cons, !fmap_app, road_rows_vertices.
  rewrite <- !list_fmap_compose.
  assert (NoDup ((vertex ∘ building_data) <$> relevant_buildings d nb)) as Hnb.
  { rewrite (list_fmap_ext (vertex ∘ building_data) (λ row, "building_" +:+ py_str row.1))
      by (by intros ? [? ?] ?).
    by apply labelled_NoDup, boolean_index_NoDup, range_index_NoDup. }
  assert (NoDup (relevant_roads d nb ≫= endpoint_ids)) as Hnr
    by (by apply endpoint_ids_NoDup, boolean_index_NoDup, range_index_NoDup).
  assert (NoDup ((vertex ∘ tree_data) <$> relevant_trees d nb)) as Hnt.
  { rewrite (list_fmap_ext (vertex ∘ tree_data) (λ row, "tree_" +:+ py_str row.1))
      by (by intros ? [? ?] ?).
    by apply labelled_NoDup, boolean_index_NoDup, range_index_NoDup. }
  assert (NoDup ((vertex ∘ transit_data) <$> relevant_transit d nb)) as Hns.
  { rewrite (list_fmap_ext (vertex ∘ transit_data) (λ row, "transit_" +:+ py_str row.1))
      by (by intros ? [? ?] ?).
    by apply labelled_NoDup, boolean_index_NoDup, range_index_NoDup. }
  assert (∀ x, x ∈ (vertex ∘ building_data) <$> relevant_buildings d nb →
               ∃ i, x = "building_" +:+ py_str i) as Fb
    by (intros x ([i b] & -> & _)%list_elem_of_fmap; by exists i).
  assert (∀ x, x ∈ relevant_roads d nb ≫= endpoint_ids →
               ∃ i, x = "road_start_" +:+ py_str i ∨ x = "road_end_" +:+ py_str i) as Fr.
  { intros x (row & Hx & _)%list_elem_of_bind. exists row.1.
    unfold endpoint_ids in Hx. destruct (String.eqb _ _); [|by apply elem_of_nil in Hx].
    apply elem_of_cons in Hx as [-> | ->%list_elem_of_singleton]; auto. }
  assert (∀ x, x ∈ (vertex ∘ tree_data) <$> relevant_trees d nb →
               ∃ i, x = "tree_" +:+ py_str i) as Ft
    by (intros x ([i t] & -> & _)%list_elem_of_fmap; by exists i).
  assert (∀ x, x ∈ (vertex ∘ transit_data) <$> relevant_transit d nb →
               ∃ i, x = "transit_" +:+ py_str i) as Fs
    by (intros x ([i t] & -> & _)%list_elem_of_fmap; by exists i).
  apply NoDup_cons. split.
  - rewrite !elem_of_app. simpl.
    intros [[i Hx]%Fb | [[i [Hx | Hx]]%Fr | [[i Hx]%Ft | [i Hx]%Fs]]];
      cbv [String.append] in Hx; congruence.
  - apply NoDup_app. split; [done|]. split.
    + intros x [i ->]%Fb. rewrite !elem_of_app.
      intros [[j [Hx | Hx]]%Fr | [[j Hx]%Ft | [j Hx]%Fs]];
        cbv [String.append] in Hx; congruence.
    + apply NoDup_app. split; [done|]. split.
      * intros x [i Hi]%Fr. rewrite !elem_of_app.
        intros [[j Hx]%Ft | [j Hx]%Fs]; destruct Hi as [-> | ->];
          cbv [String.append] in Hx; congruence.
      * apply NoDup_app. split; [done|]. split; [|done].
        intros x [i ->]%Ft [j Hx]%Fs. cbv [String.append] in Hx. congruence.
Qed.

End VertexIdentities.

Lemma vertex_unique_witness :
  ∃ all_nodes road_nodes,
    subgraph_nodes City.city City.A = Ok (all_nodes, road_nodes)
    ∧ NoDup (vertex <$> all_nodes).
Proof. exact (vertex_unique City.city City.A city_wf). Defined.

(** ** Validator: content of the returned frame *)

Section ValidatorExtras.
Context {G : Type} `{!Shapely G} {A : Type}.
Implicit Types (gdf : GeoDataFrame G A) (h : store G A).

Lemma validate_geometries_content (ref_in : ref) h gdf :
  h !! ref_in = Some gdf →
  ∃ (ref_out : ref) (h' : store G A),
    validate_geometries ref_in h = Some (ref_out, h')
    ∧ h' !! ref_out = Some (validated gdf)
    ∧ h !! ref_out = None.
Proof.
  intros Hin. unfold validate_geometries. rewrite Hin. cbn [mbind option_bind].
  set (valid := boolean_index (λ row, is_valid (geometry row)) gdf).
  destruct (alloc_spec valid h) as (l1 & -> & Hl1).
  rewrite lookup_insert_eq. cbn [mbind option_bind].
  destruct (alloc_spec (reset_index valid) (<[l1 := valid]> h)) as (l2 & -> & Hl2).
  exists l2, (<[l2 := reset_index valid]> (<[l1 := valid]> h)).
  split; [done|]. split; [apply lookup_insert_eq|].
  destruct (decide (l2 = l1)) as [->|Hne]; [by rewrite lookup_insert_eq in Hl2|].
  by rewrite lookup_insert_ne in Hl2.
Qed.

(** Frames with the 0-based index are determined by their rows. *)
Lemma range_index_eq (gdf gdf' : GeoDataFrame G A) :
  has_range_index gdf → has_range_index gdf' → gdf.*2 = gdf'.*2 → gdf = gdf'.
Proof.
  unfold has_range_index, index. intros Hi Hi' Hrows.
  assert (length gdf = length gdf') as Hlen
    by (by rewrite <- (length_fmap snd gdf), Hrows, length_fmap).
  rewrite <- Hlen, <- Hi in Hi'.
  apply list_eq. intros i.
  assert (gdf.*1 !! i = gdf'.*1 !! i) as H1 by (by rewrite Hi').
  assert (gdf.*2 !! i = gdf'.*2 !! i) as H2 by (by rewrite Hrows).
  rewrite !list_lookup_fmap in H1. rewrite !list_lookup_fmap in H2.
  destruct (gdf !! i) as [[l row]|], (gdf' !! i) as [[l' row']|]; simpl in *; congruence.
Qed.

Lemma filter_filter (p : feature G A → bool) (l : list (feature G A)) :
  List.filter p (List.filter p l) = List.filter p l.
Proof.
  induction l as [|x l IH]; [done|]. simpl.
  destruct (p x) eqn:Hp; simpl; rewrite ?Hp, IH; done.
Qed.

Lemma validated_rows gdf :
  (validated gdf).*2 = List.filter (λ row, is_valid (geometry row)) gdf.*2.
Proof. unfold validated. by rewrite reset_index_rows, boolean_index_rows. Qed.

(** X16. Validating a frame that [validate_geometries] returned gives a
    frame with the same rows and labels again; and a frame that already
    has the 0-based index and only valid geometries comes back with its
    content unchanged. *)
Theorem validate_geometries_idempotent (ref_in : ref) h gdf
    (ref1 : ref) (h1 : store G A) :
  h !! ref_in = Some gdf →
  validate_geometries ref_in h = Some (ref1, h1) →
  ∃ (ref2 : ref) (h2 : store G A),
    validate_geometries ref1 h1 = Some (ref2, h2)
    ∧ h2 !! ref2 = h1 !! ref1
    ∧ (has_range_index gdf →
       (∀ row, row ∈ gdf → is_valid (geometry row.2) = true) →
       h1 !! ref1 = Some gdf).
Proof.
  intros Hin Hrun.
  destruct (validate_geometries_content ref_in h gdf Hin) as (r1 & h1' & Hrun' & Hout & _).
  rewrite Hrun in Hrun'. injection Hrun' as <- <-.
  destruct (validate_geometries_content ref1 h1 _ Hout) as (ref2 & h2 & Hrun2 & Hout2 & _).
  exists ref2, h2. split; [done|]. rewrite Hout, Hout2. split.
  - f_equal. apply range_index_eq; [apply reset_index_range | apply reset_index_range |].
    by rewrite !validated_rows, filter_filter.
  - intros Hrange Hvalid. f_equal.
    apply range_index_eq; [apply reset_index_range | done |].
    rewrite validated_rows. apply forallb_filter_id, forallb_forall.
    intros row Hrow%list_elem_of_In%list_elem_of_fmap.
    destruct Hrow as ([l row'] & -> & Hrow). by apply (Hvalid (l, row')).
Qed.

End ValidatorExtras.

Lemma validate_geometries_idempotent_witness :
  ∃ ref1 h1 ref2 h2,
    validate_geometries 1%positive City.raw_store = Some (ref1, h1)
    ∧ validate_geometries ref1 h1 = Some (ref2, h2)
    ∧ h2 !! ref2 = h1 !! ref1.
Proof.
  destruct (validate_geometries_content 1%positive City.raw_store City.raw_roads eq_refl)
    as (ref1 & h1 & Hrun & _).
  destruct (validate_geometries_idempotent 1%positive City.raw_store City.raw_roads
              ref1 h1 eq_refl Hrun) as (ref2 & h2 & Hrun2 & Hsame & _).
  exists ref1, h1, ref2, h2. auto.
Defined.

(** ** Stage 1: [load_and_prepare_data] *)

Section LoaderFacts.
Context {G : Type} `{!Shapely G}.
Variable to_crs : G → G.
Variable geom_length : G → Q.
Variable point_in_polygon : G → G → bool.
Import PyFacts.

(** *** Index and rows through the column operations *)

Lemma index_keep {A} (f : Z * feature G A → Z * feature G A) (gdf : GeoDataFrame G A) :
  (∀ row, (f row).1 = row.1) → index (f <$> gdf) = index gdf.
Proof.
  intros Hf. unfold index. rewrite <- list_fmap_compose.
  apply list_fmap_ext. intros i row _. apply Hf.
Qed.

Lemma range_index_keep {A} (f : Z * feature G A → Z * feature G A)
    (gdf : GeoDataFrame G A) :
  (∀ row, (f row).1 = row.1) → has_range_index gdf → has_range_index (f <$> gdf).
Proof.
  intros Hf Hr. unfold has_range_index. by rewrite index_keep, length_fmap.
Qed.

Lemma assign_column_lookup {A} (f : feature G A → A) (gdf : GeoDataFrame G A) (j : nat) :
  assign_column f gdf !! j
  = (λ row, (row.1, Feature (f row.2) (geometry row.2))) <$> gdf !! j.
Proof. apply list_lookup_fmap. Qed.

Lemma assign_column_length {A} (f : feature G A → A) (gdf : GeoDataFrame G A) :
  length (assign_column f gdf) = length gdf.
Proof. apply length_fmap. Qed.

Lemma assign_column_range {A} (f : feature G A → A) (gdf : GeoDataFrame G A) :
  has_range_index gdf → has_range_index (assign_column f gdf).
Proof. by apply range_index_keep. Qed.

Lemma to_crs_frame_range {A} (gdf : GeoDataFrame G A) :
  has_range_index gdf → has_range_index (to_crs_frame to_crs gdf).
Proof. by apply range_index_keep. Qed.

Lemma validated_range {A} (gdf : GeoDataFrame G A) : has_range_index (validated gdf).
Proof. apply reset_index_range. Qed.

Lemma validated_valid {A} (gdf : GeoDataFrame G A) row :
  row ∈ validated gdf → is_valid (geometry row.2) = true.
Proof.
  intros Hrow.
  assert (row.2 ∈ (validated gdf).*2) as Hsnd by (apply list_elem_of_fmap; by exists row).
  rewrite validated_rows in Hsnd. apply list_elem_of_In, filter_In in Hsnd. tauto.
Qed.

Lemma validated_from {A} (gdf : GeoDataFrame G A) row :
  row ∈ validated gdf → row.2 ∈ gdf.*2.
Proof.
  intros Hrow.
  assert (row.2 ∈ (validated gdf).*2) as Hsnd by (apply list_elem_of_fmap; by exists row).
  rewrite validated_rows in Hsnd. apply list_elem_of_In, filter_In in Hsnd.
  apply list_elem_of_In. tauto.
Qed.

(** *** The counting loop *)

Lemma count_loop_prefix trees_gdf transit_gdf
    (gdf0 : GeoDataFrame G Neighborhood.attrs) (geoms : list G) (k : nat) :
  has_range_index gdf0 →
  geoms = (λ row, geometry row.2) <$> gdf0 →
  (k <= length gdf0)%nat →
  foldl (count_step point_in_polygon trees_gdf transit_gdf geoms) gdf0 (seq 0 k)
  = imap (counted point_in_polygon trees_gdf transit_gdf k) gdf0.
Proof.
  intros Hrange -> Hk. induction k as [|k IH].
  - simpl. apply list_eq. intros j. rewrite list_lookup_imap.
    by destruct (gdf0 !! j).
  - rewrite seq_S, foldl_snoc, IH by lia. simpl.
    destruct (lookup_lt_is_Some_2 gdf0 k) as [[lk rk] Hrk]; [lia|].
    assert (lk = Z.of_nat k) as ->.
    { assert ((k, (lk, rk)) ∈ imap pair gdf0) as _ by (by apply elem_of_lookup_imap_2).
      assert (index gdf0 !! k = Some lk) as Hl
        by (unfold index; by rewrite list_lookup_fmap, Hrk).
      rewrite Hrange in Hl. unfold RangeIndex in Hl.
      rewrite list_lookup_fmap, lookup_seq_lt in Hl by lia. by injection Hl. }
    unfold count_step. rewrite list_lookup_fmap, Hrk. simpl.
    apply list_eq. intros j. rewrite list_lookup_imap.
    destruct (is_valid (geometry rk)) eqn:Hvalid.
    + unfold at_set. rewrite !list_lookup_fmap, list_lookup_imap.
      destruct (gdf0 !! j) as [[lj rj]|] eqn:Hj; [|done]. simpl.
      assert (lj = Z.of_nat j) as ->.
      { assert (index gdf0 !! j = Some lj) as Hl
          by (unfold index; by rewrite list_lookup_fmap, Hj).
        rewrite Hrange in Hl. unfold RangeIndex in Hl.
        rewrite list_lookup_fmap, lookup_seq_lt in Hl
          by (by eapply lookup_lt_Some). by injection Hl. }
      unfold counted. simpl.
      destruct (decide (j = k)) as [->|Hne].
      * assert (rj = rk) as -> by congruence.
        rewrite Nat.ltb_irrefl. simpl. rewrite Z.eqb_refl. simpl. rewrite Z.eqb_refl.
        simpl. destruct (Nat.ltb_spec k (S k)); [|lia]. simpl. by rewrite Hvalid.
      * assert ((Z.of_nat j =? Z.of_nat k) = false) as Hjk by (apply Z.eqb_neq; lia).
        destruct (Nat.ltb_spec j k), (Nat.ltb_spec j (S k)); try lia; simpl;
          destruct (is_valid (geometry rj)); simpl; rewrite ?Hjk; simpl; rewrite ?Hjk;
          done.
    + rewrite list_lookup_imap.
      destruct (gdf0 !! j) as [[lj rj]|] eqn:Hj; [|done]. simpl. f_equal.
      unfold counted. simpl.
      destruct (decide (j = k)) as [->|Hne].
      * assert (rj = rk) as -> by congruence. rewrite Hvalid.
        by rewrite !andb_false_r.
      * by destruct (Nat.ltb_spec j k), (Nat.ltb_spec j (S k)); try lia.
Qed.

Implicit Types (raw : raw_layers (G := G)).

(** The layers of the loaded data carry the 0-based index. *)
Lemma loaded_wf_data raw :
  wf_data (load_and_prepare_data to_crs geom_length point_in_polygon raw).
Proof.
  unfold wf_data, load_and_prepare_data. cbn [buildings roads trees transit].
  split; [apply validated_range|]. split; [|split; apply validated_range].
  apply assign_column_range.
  destruct (roads_is_geographic raw); [apply to_crs_frame_range|]; apply validated_range.
Qed.

(** X17. Every layer [load_and_prepare_data] returns carries the 0-based
    index, so the layers meet what the builder relies on; and every
    geometry of the neighborhood, building, tree and transit layers is
    valid (of the road layer too when it is not reprojected). *)
Theorem loaded_layers_validated raw :
  wf_data (load_and_prepare_data to_crs geom_length point_in_polygon raw)
  ∧ has_range_index (neighborhoods (load_and_prepare_data to_crs geom_length point_in_polygon raw))
  ∧ (∀ row, row ∈ neighborhoods (load_and_prepare_data to_crs geom_length point_in_polygon raw) →
       is_valid (geometry row.2) = true)
  ∧ (∀ row, row ∈ buildings (load_and_prepare_data to_crs geom_length point_in_polygon raw) →
       is_valid (geometry row.2) = true)
  ∧ (∀ row, row ∈ trees (load_and_prepare_data to_crs geom_length point_in_polygon raw) → is_valid (geometry row.2) = true)
  ∧ (∀ row, row ∈ transit (load_and_prepare_data to_crs geom_length point_in_polygon raw) → is_valid (geometry row.2) = true)
  ∧ (roads_is_geographic raw = false →
     ∀ row, row ∈ roads (load_and_prepare_data to_crs geom_length point_in_polygon raw) → is_valid (geometry row.2) = true).
Proof.
  assert (has_range_index
            (assign_column (λ row, set_transit_count 0 (set_tree_count 0 (attrs row)))
               (validated (raw_neighborhoods raw)))) as Hn0
    by apply assign_column_range, validated_range.
  split; [|split; [|split; [|split; [|split; [|split]]]]].
  - apply loaded_wf_data.
  - unfold load_and_prepare_data. cbn [neighborhoods].
    rewrite (count_loop_prefix _ _ _ _ _ Hn0); cycle 1.
    { unfold assign_column. rewrite <- list_fmap_compose. by apply list_fmap_ext. }
    { done. }
    unfold has_range_index, index. rewrite length_imap.
    rewrite <- Hn0. unfold index. apply list_eq. intros j.
    rewrite !list_lookup_fmap, list_lookup_imap.
    destruct (_ !! j) as [row|]; [|done]. simpl. unfold counted.
    by destruct (_ && _).
  - unfold load_and_prepare_data. cbn [neighborhoods]. intros row.
    rewrite (count_loop_prefix _ _ _ _ _ Hn0); cycle 1.
    { unfold assign_column. rewrite <- list_fmap_compose. by apply list_fmap_ext. }
    { done. }
    intros (j & row0 & -> & Hj)%elem_of_lookup_imap.
    unfold counted. destruct ((j <? _)%nat && is_valid (geometry row0.2)) eqn:Hc; simpl.
    + by apply andb_prop in Hc as [_ ?].
    + rewrite assign_column_lookup in Hj.
      destruct (validated (raw_neighborhoods raw) !! j) as [row1|] eqn:Hj1; [|done].
      injection Hj as <-. simpl. eapply validated_valid, list_elem_of_lookup_2, Hj1.
  - intros row. apply validated_valid.
  - intros row. apply validated_valid.
  - intros row. apply validated_valid.
  - intros Hgeo row. unfold load_and_prepare_data. cbn [roads]. rewrite Hgeo.
    intros (row0 & -> & Hrow0)%list_elem_of_fmap. simpl. by eapply validated_valid.
Qed.

Lemma validated_origin {A} (p : feature G A → bool) (gdf : GeoDataFrame G A) row :
  row ∈ validated (boolean_index p gdf) → p row.2 = true.
Proof.
  intros Hrow%validated_from. apply list_elem_of_fmap in Hrow as (r0 & -> & Hr0).
  by apply boolean_index_elem in Hr0 as [_ ?].
Qed.

(** X18. The tree layer that is returned holds only rows of subtype
    [tree]; the transit layer only point geometries of class
    [stop_position] or [bus_stop]. *)
Theorem loaded_point_layers raw :
  (∀ row, row ∈ trees (load_and_prepare_data to_crs geom_length point_in_polygon raw) → Tree.subtype (attrs row.2) = "tree")
  ∧ (∀ row, row ∈ transit (load_and_prepare_data to_crs geom_length point_in_polygon raw) →
       (Transit.class (attrs row.2) = Some "stop_position"
        ∨ Transit.class (attrs row.2) = Some "bus_stop")
       ∧ geom_type (geometry row.2) = "Point").
Proof.
  unfold load_and_prepare_data. cbn [trees transit]. split.
  - intros row Hrow%validated_origin. by apply String.eqb_eq.
  - intros row Hrow%validated_from. apply list_elem_of_fmap in Hrow as (r0 & -> & Hr0).
    apply boolean_index_elem in Hr0 as [Hr0 Hpoint].
    apply boolean_index_elem in Hr0 as [_ Hclass].
    split; [|by apply String.eqb_eq].
    unfold isin in Hclass. destruct (Transit.class (attrs r0.2)) as [c|]; [|done].
    simpl in Hclass. rewrite orb_false_r in Hclass.
    apply orb_prop in Hclass as [->%String.eqb_eq | ->%String.eqb_eq]; auto.
Qed.

(** X19. In the neighborhood layer that is returned, row [j] is row [j]
    of the validated input with its two counts replaced: [tree_count] is
    the number of returned trees inside its polygon, [transit_count] the
    number of returned transit points; label, geometry and the other
    attributes are those of the input.  The warning branch for an
    invalid geometry is never taken. *)
Theorem neighborhood_counts raw (j : nat) (l : Z) (nb' : feature G Neighborhood.attrs) :
  neighborhoods (load_and_prepare_data to_crs geom_length point_in_polygon raw) !! j = Some (l, nb') →
  ∃ nb,
    validated (raw_neighborhoods raw) !! j = Some (l, nb)
    ∧ geometry nb' = geometry nb
    ∧ attrs nb'
      = set_transit_count
          (count_points point_in_polygon (transit (load_and_prepare_data to_crs geom_length point_in_polygon raw)) (geometry nb))
          (set_tree_count
             (count_points point_in_polygon (trees (load_and_prepare_data to_crs geom_length point_in_polygon raw)) (geometry nb))
             (attrs nb))
    ∧ 0 <= Neighborhood.tree_count (attrs nb')
        <= Z.of_nat (length (trees (load_and_prepare_data to_crs geom_length point_in_polygon raw)))
    ∧ 0 <= Neighborhood.transit_count (attrs nb')
        <= Z.of_nat (length (transit (load_and_prepare_data to_crs geom_length point_in_polygon raw))).
Proof.
  assert (has_range_index
            (assign_column (λ row, set_transit_count 0 (set_tree_count 0 (attrs row)))
               (validated (raw_neighborhoods raw)))) as Hn0
    by apply assign_column_range, validated_range.
  unfold load_and_prepare_data at 1. cbn [neighborhoods].
  rewrite (count_loop_prefix _ _ _ _ _ Hn0); cycle 1.
  { unfold assign_column. rewrite <- list_fmap_compose. by apply list_fmap_ext. }
  { done. }
  rewrite list_lookup_imap, assign_column_lookup, assign_column_length.
  destruct (validated (raw_neighborhoods raw) !! j) as [[l0 nb]|] eqn:Hj; [|done].
  simpl. unfold counted. simpl.
  pose proof (validated_valid _ _ (list_elem_of_lookup_2 _ _ _ Hj)) as Hvalid.
  simpl in Hvalid. rewrite Hvalid.
  destruct (Nat.ltb_spec j (length (validated (raw_neighborhoods raw)))) as [_|Hge];
    [|apply lookup_lt_Some in Hj; lia].
  simpl. intros [= <- <-]. exists nb. split; [done|]. split; [done|].
  cbn [attrs geometry]. split; [reflexivity|].
  unfold count_points. cbn [Neighborhood.tree_count Neighborhood.transit_count
    set_transit_count set_tree_count].
  split; (split; [lia|]); apply inj_le, List.filter_length_le.
Qed.

(** X20. Every returned road carries as [length_m] the length of its
    geometry, which is the geometry of a valid input road, reprojected
    when the layer came in a geographic reference system; its class is
    that of the input road. *)
Theorem road_lengths raw row :
  row ∈ roads (load_and_prepare_data to_crs geom_length point_in_polygon raw) →
  Road.length_m (attrs row.2) = Some (geom_length (geometry row.2))
  ∧ ∃ r0,
      r0 ∈ (raw_roads raw).*2
      ∧ is_valid (geometry r0) = true
      ∧ Road.class (attrs row.2) = Road.class (attrs r0)
      ∧ geometry row.2
        = if roads_is_geographic raw then to_crs (geometry r0) else geometry r0.
Proof.
  unfold load_and_prepare_data. cbn [roads].
  intros (row1 & -> & Hrow1)%list_elem_of_fmap. simpl. split; [done|].
  destruct (roads_is_geographic raw).
  - apply list_elem_of_fmap in Hrow1 as (row0 & -> & Hrow0). simpl.
    exists row0.2. split; [exact (validated_from _ _ Hrow0)|].
    split; [exact (validated_valid _ _ Hrow0)|]. done.
  - exists row1.2. split; [exact (validated_from _ _ Hrow1)|].
    split; [exact (validated_valid _ _ Hrow1)|]. done.
Qed.

(** X21. Stage 2 on the output of stage 1: whatever files were read,
    when the cache files can be written [build_graph] raises nothing on
    the loaded layers exactly when none of their neighborhoods has an
    incomplete cache file. *)
Theorem loaded_data_builds (write : string → write_outcome) raw (fs : files) :
  (∀ p, write p = Written) →
  (∃ st fs',
     build_graph write (load_and_prepare_data to_crs geom_length point_in_polygon raw) fs
     = (Ok st, fs'))
  ↔ (∀ row,
       row ∈ neighborhoods (load_and_prepare_data to_crs geom_length point_in_polygon raw) →
       fs !! subgraph_path (name_of row) ≠ Some Incomplete).
Proof.
  intros Hw. split.
  - intros (st & fs' & Hrun) row Hrow Hbad.
    assert (cache_agrees {| subgraphs := ∅; road_network_nodes := [] |} fs) as Hinit
      by (by intros k sd Hk).
    destruct (build_loop_inv write _ _ _ _ _ _ Hinit Hrun) as (Hinv & Hall & _).
    destruct (build_loop_files write _ _ _ _ _ _ Hrun) as [Hkeep _].
    destruct (Hall row Hrow) as [sd Hsd]. apply Hinv in Hsd.
    apply Hkeep in Hbad. congruence.
  - intros Hfiles. apply build_graph_returns; [|done|done].
    by destruct (loaded_wf_data raw) as (_ & Hr & _).
Qed.

End LoaderFacts.

Lemma neighborhood_counts_witness :
  ∃ nb',
    neighborhoods Town.loaded !! 0%nat = Some (0, nb')
    ∧ Neighborhood.tree_count (attrs nb') = 2
    ∧ Neighborhood.transit_count (attrs nb') = 1
    ∧ Neighborhood.LIE_NAME (attrs nb') = "A".
Proof.
  assert (∃ nb', neighborhoods Town.loaded !! 0%nat = Some (0, nb')) as [nb' Hnb']
    by (vm_compute; eauto).
  destruct (neighborhood_counts Town.shift Town.seg_length Line.seg_within Town.layers
              0 0 nb' Hnb') as (nb & Hnb & _ & Hattrs & _).
  exists nb'. split; [exact Hnb'|].
  injection Hnb as <-. rewrite Hattrs. repeat split.
Defined.

Lemma road_lengths_witness :
  ∃ row, row ∈ roads Town.loaded
         ∧ Road.length_m (attrs row.2) = Some (Town.seg_length (geometry row.2))
         ∧ geometry row.2 = Line.line_string 1250 1400.
Proof.
  exists (0, Feature (Road.Build_attrs (Some "residential") (Some (inject_Z 150)))
               (Line.line_string 1250 1400)).
  assert ((0, Feature (Road.Build_attrs (Some "residential") (Some (inject_Z 150)))
                (Line.line_string 1250 1400)) ∈ roads Town.loaded) as Hin by (by left).
  split; [exact Hin|].
  destruct (road_lengths Town.shift Town.seg_length Line.seg_within Town.layers _ Hin)
    as [Hlen _].
  split; [exact Hlen | reflexivity].
Defined.

Lemma loaded_data_builds_witness :
  ∃ st fs', build_graph City.always_writable Town.loaded ∅ = (Ok st, fs').
Proof.
  apply (proj2 (loaded_data_builds Town.shift Town.seg_length Line.seg_within
                  City.always_writable Town.layers ∅ (λ _, eq_refl))).
  intros row _. by rewrite lookup_empty.
Defined.

(** ** Stage 3: [calculate_walkability] *)

Section Stage3Facts.
Import Scorer ScorerFacts Stage3.

Lemma masked_loc_assign (f : node → cell) (l : list node) (col : list cell) :
  length col = length l →
  masked (is_neighborhood <$> l)
    (loc_assign (is_neighborhood <$> l) col (f <$> List.filter is_neighborhood l))
  = f <$> List.filter is_neighborhood l.
Proof.
  revert col. induction l as [|n l IH]; intros [|c col] Hlen; simpl in *; try done.
  destruct (is_neighborhood n); simpl; rewrite IH; auto with lia.
Qed.

Lemma masked_none (l : list node) (col : list cell) :
  List.filter is_neighborhood l = [] → masked (is_neighborhood <$> l) col = [].
Proof.
  revert col. induction l as [|n l IH]; intros [|c col]; simpl; try done.
  - by destruct (is_neighborhood n).
  - destruct (is_neighborhood n); [done | apply IH].
Qed.

(** After scoring, the scores read back from the neighborhood rows are
    those of the neighborhood rows, in order. *)
Lemma neighborhood_walkability_compute (df : nodes_df) :
  wf_nodes_df df →
  neighborhood_walkability (compute_walkability_scores df)
  = row_walkability <$> List.filter is_neighborhood (rows df).
Proof.
  intros Hwf. unfold neighborhood_walkability, compute_walkability_scores.
  destruct (length (List.filter is_neighborhood (rows df)) =? 0)%nat eqn:Hnone;
    cbn [rows walkability_rule].
  - apply Nat.eqb_eq, nil_length_inv in Hnone. rewrite Hnone. by apply masked_none.
  - apply masked_loc_assign. by apply ensure_column_length.
Qed.

Lemma cells_length (names : list string) col :
  wf_column names col → length (cells names col) = length names.
Proof.
  intros Hwf. destruct col as [c|]; simpl; [by apply Hwf | by rewrite length_replicate].
Qed.

Lemma loc_set_wf (names : list string) k v col :
  wf_column names col → wf_column names (loc_set names k v col).
Proof.
  intros Hwf c [= <-]. rewrite length_zip_with. fold (cells names col).
  rewrite cells_length by done. lia.
Qed.

Lemma loc_set_lookup (names : list string) k v col (j : nat) name :
  wf_column names col →
  names !! j = Some name →
  cells names (loc_set names k v col) !! j
  = if String.eqb name k then Some v else cells names col !! j.
Proof.
  intros Hwf Hj. unfold loc_set, cells at 1. cbn [default]. fold (cells names col).
  unfold id. rewrite lookup_zip_with, Hj. simpl.
  destruct (lookup_lt_is_Some_2 (cells names col) j) as [c Hc];
    [rewrite cells_length by done; by eapply lookup_lt_Some|].
  rewrite Hc. simpl. by destruct (String.eqb name k).
Qed.

Lemma score_loop (names : list string) (items done : list (string * subgraph_data))
    (col : option (list cell)) :
  NoDup items.*1 →
  wf_column names col →
  ∃ col',
    foldl (score_subgraph names) (done, col) items = (done ++ (scored <$> items), col')
    ∧ wf_column names col'
    ∧ (col' = None ↔ col = None ∧ Forall (λ item, copied_score item.2 = None) items)
    ∧ ∀ j name, names !! j = Some name →
        cells names col' !! j
        = match (list_to_map items : gmap string subgraph_data) !! name ≫= copied_score with
          | Some v => Some v
          | None => cells names col !! j
          end.
Proof.
  revert done col. induction items as [|[k sd] items IH]; intros done col Hnodup Hlen.
  - exists col. simpl. rewrite app_nil_r. split; [done|]. split; [done|]. split.
    + split; [by intros ->|]. by intros [-> _].
    + intros j name _. by rewrite lookup_empty.
  - rewrite fmap_cons in Hnodup. apply NoDup_cons in Hnodup as [Hk Hnodup].
    cbn [foldl]. unfold score_subgraph at 2. cbn [fst snd].
    set (col1 := match neighborhood_walkability (compute_walkability_scores (nodes sd)) with
                 | [] => col
                 | v :: _ => loc_set names k v col
                 end).
    assert (wf_column names col1) as Hlen1.
    { unfold col1. destruct (neighborhood_walkability _); [done | by apply loc_set_wf]. }
    destruct (IH (done ++ [(k, {| nodes := compute_walkability_scores (nodes sd);
                                  edges := edges sd |})]) col1 Hnodup Hlen1)
      as (col' & Hfold & Hlen' & Hnone & Hcol').
    exists col'. rewrite Hfold. split; [by rewrite <- app_assoc|]. split; [done|]. split.
    + rewrite Hnone, Forall_cons. unfold copied_score at 2, col1. cbn [snd].
      destruct (neighborhood_walkability _) as [|v ?]; simpl; [tauto|].
      unfold loc_set. split; [by intros [? _] | by intros [_ [? _]]].
    + intros j name Hj. rewrite (Hcol' j name Hj). cbn [list_to_map foldr].
      destruct (decide (name = k)) as [->|Hne].
      * rewrite lookup_insert_eq, (not_elem_of_list_to_map_1 _ _ Hk).
        cbn [mbind option_bind]. unfold copied_score, col1.
        destruct (neighborhood_walkability _) as [|v ?]; [done|]. cbn [head].
        rewrite (loc_set_lookup _ _ _ _ _ _ Hlen Hj). by rewrite String.eqb_refl.
      * rewrite lookup_insert_ne by done.
        destruct (_ ≫= copied_score); [done|]. unfold col1.
        destruct (neighborhood_walkability _) as [|v ?]; [done|].
        rewrite (loc_set_lookup _ _ _ _ _ _ Hlen Hj).
        by destruct (String.eqb_spec name k).
Qed.

(** X22. [calculate_walkability] returns the dictionary with every node
    table scored, keys, order and edge tables as they were.  The
    neighborhood frame gets the column [walkability_rule] unless no
    subgraph has a neighborhood row; the column has one cell per row,
    and a row named [k] holds the score of the first neighborhood row
    of subgraph [k], NaN where there is no subgraph of that name or the
    subgraph has no neighborhood row. *)
Theorem calculate_walkability_spec {G} (items : list (string * subgraph_data))
    (neighborhoods_gdf : GeoDataFrame G Neighborhood.attrs) :
  NoDup items.*1 →
  (calculate_walkability items neighborhoods_gdf).1 = scored <$> items
  ∧ ((calculate_walkability items neighborhoods_gdf).2 = None
     ↔ Forall (λ item, copied_score item.2 = None) items)
  ∧ ∀ col, (calculate_walkability items neighborhoods_gdf).2 = Some col →
      length col = length neighborhoods_gdf
      ∧ ∀ j row, neighborhoods_gdf !! j = Some row →
          col !! j
          = Some (default None
                    ((list_to_map items : gmap string subgraph_data)
                       !! Neighborhood.LIE_NAME (attrs row.2) ≫= copied_score)).
Proof.
  intros Hnodup. unfold calculate_walkability.
  destruct (score_loop (column Neighborhood.LIE_NAME neighborhoods_gdf) items [] None Hnodup)
    as (col' & -> & Hlen & Hnone & Hcol); [done|].
  cbn [fst snd]. split; [done|]. split; [rewrite Hnone; tauto|].
  intros col ->. unfold column in *. rewrite <- (length_fmap (λ r, Neighborhood.LIE_NAME (attrs r.2))).
  split; [by apply Hlen|].
  intros j row Hj.
  specialize (Hcol j (Neighborhood.LIE_NAME (attrs row.2))).
  unfold cells in Hcol. cbn [default] in Hcol. unfold id in Hcol.
  rewrite Hcol by (by rewrite list_lookup_fmap, Hj).
  destruct (_ ≫= copied_score); [done|].
  apply lookup_replicate_2. rewrite length_fmap. by eapply lookup_lt_Some.
Qed.

End Stage3Facts.

Lemma calculate_walkability_spec_witness :
  ∃ col,
    (Stage3.calculate_walkability
       [("A", {| nodes := City.table_of City.A; edges := None |}); ("B", City.stale)]
       (neighborhoods City.city)).2 = Some col
    ∧ col !! 0%nat = Some (Scorer.row_walkability (node_data City.A))
    ∧ col !! 1%nat = Some None.
Proof.
  assert (NoDup [("A", {| nodes := City.table_of City.A; edges := None |});
                 ("B", City.stale)].*1) as Hnodup.
  { apply NoDup_cons. split; [|apply NoDup_singleton].
    intros Hin%list_elem_of_singleton. discriminate Hin. }
  destruct (calculate_walkability_spec
              [("A", {| nodes := City.table_of City.A; edges := None |}); ("B", City.stale)]
              (neighborhoods City.city) Hnodup) as (_ & _ & Hcol).
  destruct (Stage3.calculate_walkability _ _).2 as [col|] eqn:E; [|by vm_compute in E].
  exists col. destruct (Hcol col eq_refl) as [_ Hrow]. split; [done|]. split.
  - rewrite (Hrow 0%nat (0, City.A) eq_refl). vm_compute. reflexivity.
  - rewrite (Hrow 1%nat (1, City.B) eq_refl). vm_compute. reflexivity.
Defined.

Section Stage3Builder.
Context {G : Type} `{!Shapely G}.
Variable write : string → write_outcome.
Import Scorer ScorerFacts Stage3.
Implicit Types (d : data G) (st : build_state) (fs : files).

Lemma node_data_is_neighborhood (nb : feature G Neighborhood.attrs) :
  is_neighborhood (node_data nb) = true.
Proof. done. Qed.

(** The score copied for a table as first built: that of its
    neighborhood row. *)
Lemma copied_score_fresh d nb all_nodes road_nodes e :
  subgraph_nodes d nb = Ok (all_nodes, road_nodes) →
  copied_score {| nodes := {| rows := all_nodes; walkability_rule := None |}; edges := e |}
  = Some (row_walkability (node_data nb)).
Proof.
  intros Hnodes. destruct (subgraph_nodes_shape _ _ _ _ Hnodes) as (rest & -> & _).
  unfold copied_score. rewrite neighborhood_walkability_compute by done.
  cbn [nodes rows List.filter]. by rewrite node_data_is_neighborhood.
Qed.

(** X23. Building and then scoring: every row of the neighborhood
    frame gets the score computed from the first row that carries its
    name.  A later row with the same name gets that score too, whatever
    its own attributes are. *)
Theorem duplicate_names_share_score d pre row post fs st fs'
    (items : list (string * subgraph_data)) (j : nat) row' :
  neighborhoods d = pre ++ row :: post →
  name_of row ∉ name_of <$> pre →
  fs !! subgraph_path (name_of row) = None →
  build_graph write d fs = (Ok st, fs') →
  NoDup items.*1 →
  list_to_map items = subgraphs st →
  neighborhoods d !! j = Some row' →
  name_of row' = name_of row →
  ∃ col,
    (calculate_walkability items (neighborhoods d)).2 = Some col
    ∧ col !! j = Some (row_walkability (node_data row.2)).
Proof.
  intros Hnbs Hfresh Hmiss Hrun Hnodup Hitems Hj Hname.
  destruct (first_subgraph_kept write d pre row post fs st fs' Hnbs Hfresh Hmiss Hrun)
    as (all_nodes & road_nodes & Hnodes & Hsd).
  unfold calculate_walkability.
  destruct (score_loop (column Neighborhood.LIE_NAME (neighborhoods d)) items [] None Hnodup)
    as (col' & -> & Hlen & Hnone & Hcol); [done|].
  cbn [snd].
  specialize (Hcol j (name_of row)).
  rewrite Hitems, Hsd in Hcol. cbn [mbind option_bind] in Hcol.
  rewrite (copied_score_fresh _ _ _ _ _ Hnodes) in Hcol.
  destruct col' as [col|].
  - exists col. split; [done|]. apply Hcol.
    unfold column. rewrite list_lookup_fmap, Hj. simpl. by rewrite <- Hname.
  - exfalso. destruct Hnone as [Hnone _]. destruct (Hnone eq_refl) as [_ Hall].
    rewrite Forall_forall in Hall.
    assert ((name_of row, {| nodes := {| rows := all_nodes; walkability_rule := None |};
                             edges := None |}) ∈ items) as Hin.
    { apply elem_of_list_to_map; [done|]. by rewrite Hitems. }
    specialize (Hall _ Hin). cbn [snd] in Hall.
    by rewrite (copied_score_fresh _ _ _ _ _ Hnodes) in Hall.
Qed.

End Stage3Builder.

Lemma duplicate_names_share_score_witness :
  ∃ st fs' col,
    build_graph City.always_writable City.twins ∅ = (Ok st, fs')
    ∧ (Stage3.calculate_walkability (map_to_list (subgraphs st))
         (neighborhoods City.twins)).2 = Some col
    ∧ col !! 2%nat = Some (Scorer.row_walkability (node_data City.A)).
Proof.
  destruct (city_returns City.twins eq_refl) as (st & fs' & Hrun).
  destruct (duplicate_names_share_score City.always_writable City.twins [] (0, City.A)
              [(1, City.B); (2, Feature (attrs City.A') (Line.polygon 2000 2100))]
              ∅ st fs' (map_to_list (subgraphs st)) 2
              (2, Feature (attrs City.A') (Line.polygon 2000 2100))
              eq_refl (not_elem_of_nil _) (lookup_empty _) Hrun
              (NoDup_fst_map_to_list _) (list_to_map_to_list _) eq_refl eq_refl)
    as (col & Hcol & Hj).
  exists st, fs', col. auto.
Defined.

(** ** Stage 4: [prepare_gnn_data] *)

Section Stage4Facts.
Import Scorer ScorerFacts PyFacts Stage3 Stage4.

Lemma existsb_is_neighborhood (l : list node) :
  existsb is_neighborhood l = true ↔ ∃ n, n ∈ l ∧ type n = "neighborhood".
Proof.
  rewrite existsb_exists. unfold is_neighborhood. split.
  - intros (n & Hin & Hn). exists n. split; [by apply list_elem_of_In|].
    by apply String.eqb_eq.
  - intros (n & Hin & Hn). exists n. split; [by apply list_elem_of_In|].
    by apply String.eqb_eq.
Qed.

Lemma features_other n : type n ≠ "neighborhood" → features n = [0; 0; 0; 0; 0; 0]%Q.
Proof. by destruct n. Qed.

Lemma gnn_data_returns (sd : subgraph_data) :
  (∃ dt, gnn_data sd = Ok dt)
  ↔ (∃ n, n ∈ rows (nodes sd) ∧ type n = "neighborhood")
    ∧ is_Some (walkability_rule (nodes sd)).
Proof.
  unfold gnn_data. pose proof (existsb_is_neighborhood (rows (nodes sd))) as Hex.
  destruct (existsb is_neighborhood (rows (nodes sd))).
  - destruct (walkability_rule (nodes sd)) as [col|].
    + split; [intros _|by eauto]. split; [by apply Hex | by eauto].
    + split; [by intros [? ?] | by intros [_ [? ?]]].
  - split; [by intros [? ?]|]. intros [Hn _]. by apply Hex in Hn.
Qed.

(** X24. The training sample of one subgraph exists exactly when the
    node table has a neighborhood row and a score column; otherwise the
    preparation stops with a [KeyError].  A sample has one feature row
    of six values per node, all zero on a row that is not a
    neighborhood, and the score column as labels. *)
Theorem gnn_data_spec (sd : subgraph_data) :
  ((∃ dt, gnn_data sd = Ok dt)
   ↔ (∃ n, n ∈ rows (nodes sd) ∧ type n = "neighborhood")
     ∧ is_Some (walkability_rule (nodes sd)))
  ∧ ∀ dt, gnn_data sd = Ok dt →
      length (x dt) = length (rows (nodes sd))
      ∧ Forall (λ r, length r = 6%nat) (x dt)
      ∧ walkability_rule (nodes sd) = Some (y dt)
      ∧ ∀ i n, rows (nodes sd) !! i = Some n → type n ≠ "neighborhood" →
          x dt !! i = Some [0; 0; 0; 0; 0; 0]%Q.
Proof.
  split; [apply gnn_data_returns|]. unfold gnn_data.
  destruct (existsb is_neighborhood (rows (nodes sd))); [|done].
  destruct (walkability_rule (nodes sd)) as [col|]; [|done].
  intros dt [= <-]. cbn [x y]. rewrite length_fmap. split; [done|].
  split; [|split; [done|]].
  - rewrite Forall_fmap. apply Forall_forall. by intros [] _.
  - intros i n Hi Hn. by rewrite list_lookup_fmap, Hi, <- (features_other n Hn).
Qed.

Lemma fst_score_loop (names : list string) (items done : list (string * subgraph_data)) col :
  (foldl (score_subgraph names) (done, col) items).1 = done ++ (scored <$> items).
Proof.
  revert done col. induction items as [|[k sd] items IH]; intros done col.
  - simpl. by rewrite app_nil_r.
  - cbn [foldl]. unfold score_subgraph at 2. rewrite IH. cbn [fst]. by rewrite <- app_assoc.
Qed.

Lemma mapM_result_Ok {A B} (f : A → result B) (l : list A) :
  (∃ k, mapM f l = Ok k) ↔ Forall (λ a, ∃ b, f a = Ok b) l.
Proof.
  induction l as [|a l IH]; simpl.
  - split; [by constructor | by eauto].
  - rewrite Forall_cons, <- IH. destruct (f a) as [b|e]; simpl.
    + destruct (mapM f l) as [k|e]; simpl.
      * split; [by eauto | by eauto].
      * split; [by intros [? ?] | by intros [_ [? ?]]].
    + split; [by intros [? ?] | by intros [[? ?] _]].
Qed.

(** X25. After the scoring stage every table has its label column, so
    the preparation of the training data returns exactly when every
    subgraph has a neighborhood row; it then gives one sample per
    subgraph.  A subgraph read from a cache file that holds no
    neighborhood row stops it. *)
Theorem prepare_after_scoring {G} (items : list (string * subgraph_data))
    (neighborhoods_gdf : GeoDataFrame G Neighborhood.attrs) :
  ((∃ data_list, prepare_gnn_data (calculate_walkability items neighborhoods_gdf).1
                 = Ok data_list)
   ↔ Forall (λ item, ∃ n, n ∈ rows (nodes item.2) ∧ type n = "neighborhood") items)
  ∧ ∀ data_list,
      prepare_gnn_data (calculate_walkability items neighborhoods_gdf).1 = Ok data_list →
      length data_list = length items.
Proof.
  unfold calculate_walkability, prepare_gnn_data. rewrite fst_score_loop. cbn [app].
  split.
  - rewrite mapM_result_Ok, Forall_fmap. apply Forall_iff. intros [k sd]. cbn [snd scored].
    unfold compose. cbn [snd].
    rewrite (gnn_data_returns
               {| nodes := compute_walkability_scores (nodes sd); edges := edges sd |}). cbn [nodes]. rewrite rows_compute. split; [by intros [? _]|].
    intros Hn. split; [done|]. unfold compute_walkability_scores.
    by destruct (_ =? _)%nat.
  - intros data_list Hrun. apply mapM_result_inv, Forall2_length in Hrun.
    by rewrite length_fmap in Hrun.
Qed.

End Stage4Facts.

Section Stage4Builder.
Context {G : Type} `{!Shapely G}.
Import Scorer ScorerFacts Stage3 Stage4.

Lemma loc_assign_other (rest : list node) (col values : list cell) :
  Forall (λ n, type n ≠ "neighborhood") rest →
  length col = length rest →
  loc_assign (is_neighborhood <$> rest) col values = col.
Proof.
  intros Hrest. revert col. induction Hrest as [|n rest Hn _ IH]; intros [|c col] Hlen;
    simpl in *; try done.
  rewrite (type_not_neighborhood n Hn). f_equal. apply IH. lia.
Qed.

Lemma features_rest (rest : list node) :
  Forall (λ n, type n ≠ "neighborhood") rest →
  features <$> rest = replicate (length rest) [0; 0; 0; 0; 0; 0]%Q.
Proof.
  induction 1 as [|n rest Hn _ IH]; [done|]. rewrite fmap_cons, IH. simpl.
  by rewrite (features_other n Hn).
Qed.

(** X26. The training sample of a subgraph that was just built and
    scored: the neighborhood row comes first with its six features and
    its score as label; every other node has zero features and the
    label 0.0; there are no edges. *)
Theorem fresh_training_data (d : data G) nb all_nodes road_nodes :
  subgraph_nodes d nb = Ok (all_nodes, road_nodes) →
  gnn_data {| nodes := compute_walkability_scores
                         {| rows := all_nodes; walkability_rule := None |};
              edges := None |}
  = Ok {| x := features (node_data nb)
               :: replicate (length all_nodes - 1) [0; 0; 0; 0; 0; 0]%Q;
          edge_index := ([], []);
          y := row_walkability (node_data nb)
               :: replicate (length all_nodes - 1) (Some 0%Q) |}.
Proof.
  intros Hnodes. destruct (subgraph_nodes_shape _ _ _ _ Hnodes) as (rest & -> & Hrest).
  unfold gnn_data. cbn [nodes edges]. rewrite rows_compute. cbn [rows existsb].
  rewrite node_data_is_neighborhood. cbn [orb].
  unfold compute_walkability_scores, ensure_column. cbn [rows walkability_rule List.filter].
  rewrite node_data_is_neighborhood. cbn [length Nat.eqb walkability_rule].
  rewrite !fmap_cons, node_data_is_neighborhood. cbn [replicate fmap list_fmap loc_assign].
  rewrite loc_assign_other by (by rewrite ?length_replicate).
  replace (S (length rest) - 1)%nat with (length rest) by lia.
  by rewrite features_rest.
Qed.

End Stage4Builder.

Lemma fresh_training_data_witness :
  ∃ all_nodes road_nodes dt,
    subgraph_nodes City.city City.A = Ok (all_nodes, road_nodes)
    ∧ Stage4.gnn_data
        {| nodes := Scorer.compute_walkability_scores
                      {| rows := all_nodes; walkability_rule := None |};
           edges := None |} = Ok dt
    ∧ Stage4.edge_index dt = ([], [])
    ∧ length (Stage4.x dt) = length all_nodes.
Proof.
  destruct (subgraph_nodes City.city City.A) as [[all_nodes road_nodes]|e] eqn:Hnodes;
    [|by vm_compute in Hnodes].
  exists all_nodes, road_nodes. eexists.
  split; [reflexivity|].
  split; [exact (fresh_training_data City.city City.A all_nodes road_nodes Hnodes)|].
  split; [reflexivity|]. cbn [Stage4.x length]. rewrite length_replicate.
  destruct (subgraph_nodes_shape _ _ _ _ Hnodes) as (rest & -> & _). simpl. lia.
Defined.
